(** * Viewport: coordinate conversion, culling and alignment

  A shallow embedding of [d2core/d2map/d2maprenderer/viewport.go]
  (package [d2maprenderer] of OpenDiablo2) and the properties of its
  specification.

  Layout:
  - [GoInt]: Go's [int] (64 bits, two's complement, wrapping);
  - [Float64]: the [float64] operations the file uses, as an interface,
    with two instances: [Float64_R] (arithmetic over the reals, for the
    algebraic statements) and [Float64_b64] (IEEE 754 binary64 through
    Rocq's primitive floats, which computes);
  - [Rectangle], [Camera]: the two collaborators of the viewport;
  - the viewport itself, function by function, in the order of the source;
  - the theorems. *)

From Stdlib Require Import ZArith List Bool String Lia.
From Stdlib Require Import Reals Lra.
From Stdlib Require Import PrimFloat FloatOps SpecFloat.
From Stdlib Require Uint63.
Import ListNotations.

Set Implicit Arguments.

Local Open Scope Z_scope.

(* ================================================================= *)
(** ** Go's [int] *)

Module GoInt.

(** [int] is 64 bits wide on the platforms the game targets. *)
Definition min_int : Z := - 2 ^ 63.
Definition max_int : Z := 2 ^ 63 - 1.

Definition in_range (z : Z) : bool := (min_int <=? z) && (z <=? max_int).

(** Two's complement wrap-around of a mathematical integer. *)
Definition wrap (z : Z) : Z := (z + 2 ^ 63) mod 2 ^ 64 - 2 ^ 63.

Definition add (a b : Z) : Z := wrap (a + b).
Definition sub (a b : Z) : Z := wrap (a - b).
Definition mul (a b : Z) : Z := wrap (a * b).

(** [a / b] truncates toward zero; every divisor in this file is the
    constant 2, so neither the division by zero nor [min_int / -1] arises. *)
Definition quot (a b : Z) : Z := wrap (Z.quot a b).

End GoInt.

(* ================================================================= *)
(** ** The [float64] operations of the source *)

(** The viewport uses [+], [-], [*], [/] on [float64], the conversions
  [float64(i)] and [int(f)], and [math.Floor]. *)
Class Float64 (F : Type) : Type := {
fadd : F -> F -> F;
fsub : F -> F -> F;
fmul : F -> F -> F;
fdiv : F -> F -> F;
float64_of_int : Z -> F;
math_Floor : F -> F;
int_of_float64 : F -> Z
}.

Declare Scope go_scope.
Delimit Scope go_scope with go.
Infix "[+]" := fadd (at level 50, left associativity) : go_scope.
Infix "[-]" := fsub (at level 50, left associativity) : go_scope.
Infix "[*]" := fmul (at level 40, left associativity) : go_scope.
Infix "[/]" := fdiv (at level 40, left associativity) : go_scope.

(** The zero value of a [float64] variable. *)
Definition float64_zero {F} `{Float64 F} : F := float64_of_int 0.

(** A conversion [int(f)] whose value does not fit an [int] is left to the
  implementation by the language; amd64 yields the least [int]. *)
Definition int_of_Z (z : Z) : Z :=
if GoInt.in_range z then z else GoInt.min_int.

(* ----------------------------------------------------------------- *)
(** *** Instance over the reals *)

Module RealFloat.

(** Truncation toward zero, as [int(f)] does. *)
Definition Ztrunc (r : R) : Z :=
  if Rle_dec 0 r then Zfloor r else Zceil r.

Definition floor (r : R) : R := IZR (Zfloor r).

Definition to_int (r : R) : Z := int_of_Z (Ztrunc r).

End RealFloat.

#[export] Instance Float64_R : Float64 R := {
fadd := Rplus;
fsub := Rminus;
fmul := Rmult;
fdiv := Rdiv;
float64_of_int := IZR;
math_Floor := RealFloat.floor;
int_of_float64 := RealFloat.to_int
}.

(* ----------------------------------------------------------------- *)
(** *** Instance over IEEE 754 binary64 *)

Module Binary64.

(** [float64(i)]: the nearest binary64 value, ties to even. *)
Definition of_int (z : Z) : float :=
  match z with
  | Z0 => PrimFloat.zero
  | Zpos _ => PrimFloat.of_uint63 (Uint63.of_Z z)
  | Zneg p =>
      if z =? GoInt.min_int
      then PrimFloat.opp (FloatOps.Z.ldexp PrimFloat.one 63)
      else PrimFloat.opp (PrimFloat.of_uint63 (Uint63.of_Z (Zpos p)))
  end.

(** [math.Floor]: the greatest integral value not above [f]; zeros,
    infinities and NaN are returned as they are. *)
Definition floor (f : float) : float :=
  match Prim2SF f with
  | S754_finite s m e =>
      if 0 <=? e then f
      else
        let q := Zpos m / 2 ^ (- e) in
        if Zpos m mod 2 ^ (- e) =? 0 then f
        else if s then PrimFloat.opp (of_int (q + 1)) else of_int q
  | _ => f
  end.

(** [int(f)]: the fractional part is discarded. *)
Definition to_int (f : float) : Z :=
  match Prim2SF f with
  | S754_zero _ => 0
  | S754_finite s m e =>
      let mag := if 0 <=? e then Zpos m * 2 ^ e else Zpos m / 2 ^ (- e) in
      int_of_Z (if s then - mag else mag)
  | S754_infinity _ | S754_nan => GoInt.min_int
  end.

End Binary64.

#[export] Instance Float64_b64 : Float64 float := {
fadd := PrimFloat.add;
fsub := PrimFloat.sub;
fmul := PrimFloat.mul;
fdiv := PrimFloat.div;
float64_of_int := Binary64.of_int;
math_Floor := Binary64.floor;
int_of_float64 := Binary64.to_int
}.

(* ================================================================= *)
(** ** Collaborators *)

(** Modelled from the spec: [d2common.Rectangle], whose declaration is in
  another package: integer [Left], [Top], [Width], [Height], and the
  derived [Right = Left + Width], [Bottom = Top + Height]. *)
Module Rectangle.

Record t : Type := mk {
  Left : Z;
  Top : Z;
  Width : Z;
  Height : Z
}.

Definition Right (r : t) : Z := GoInt.add (Left r) (Width r).
Definition Bottom (r : t) : Z := GoInt.add (Top r) (Height r).

End Rectangle.

(** Modelled from the spec: [Camera], declared in another file of the
  package: its one capability is to return its current position as two
  [float64] coordinates. *)
Module Camera.

Record t (F : Type) : Type := mk {
  position : F * F
}.

Definition GetPosition {F} (c : t F) : F * F := position c.

End Camera.

(* ================================================================= *)
(** ** The viewport *)

Module worldTrans.

Record t (F : Type) : Type := mk {
  x : F;
  y : F
}.

End worldTrans.

Definition center : Z := 0.
Definition left : Z := 1.
Definition right : Z := 2.

Record Viewport (F : Type) : Type := mkViewport {
defaultScreenRect : Rectangle.t;
screenRect : Rectangle.t;
transStack : list (worldTrans.t F);
transCurrent : worldTrans.t F;
camera : option (Camera.t F);
align : Z
}.

(** A call that may end in [panic]. *)
Inductive result (A : Type) : Type :=
| Ok (a : A)
| Panic (msg : string).

Arguments Ok {A} a.
Arguments Panic {A} msg.

Definition bind {A B} (r : result A) (k : A -> result B) : result B :=
match r with
| Ok a => k a
| Panic msg => Panic msg
end.

Section ViewportOps.

Context {F : Type} `{Float64 F}.
Local Open Scope go_scope.

Implicit Type v : Viewport F.

Definition NewViewport (x y width height : Z) : Viewport F :=
  {| screenRect := Rectangle.mk x y width height;
     defaultScreenRect := Rectangle.mk x y width height;
     transStack := [];
     transCurrent := worldTrans.mk float64_zero float64_zero;
     camera := None;
     align := 0 |}.

Definition SetCamera v (c : option (Camera.t F)) : Viewport F :=
  {| defaultScreenRect := defaultScreenRect v;
     screenRect := screenRect v;
     transStack := transStack v;
     transCurrent := transCurrent v;
     camera := c;
     align := align v |}.

Definition OrthoToWorld v (x y : F) : F * F :=
  let worldX := (x [/] float64_of_int 80 [+] y [/] float64_of_int 40)
                [/] float64_of_int 2 in
  let worldY := (y [/] float64_of_int 40 [-] x [/] float64_of_int 80)
                [/] float64_of_int 2 in
  (worldX, worldY).

Definition WorldToOrtho v (x y : F) : F * F :=
  let orthoX := (x [-] y) [*] float64_of_int 80 in
  let orthoY := (x [+] y) [*] float64_of_int 40 in
  (orthoX, orthoY).

Definition getCameraOffset v : F * F :=
  let '(camX, camY) :=
    match camera v with
    | Some c => Camera.GetPosition c
    | None => (float64_zero, float64_zero)
    end in
  let camX := camX [-] float64_of_int
                        (GoInt.quot (Rectangle.Width (screenRect v)) 2) in
  let camY := camY [-] float64_of_int
                        (GoInt.quot (Rectangle.Height (screenRect v)) 2) in
  (camX, camY).

Definition ScreenToOrtho v (x y : Z) : F * F :=
  let '(camX, camY) := getCameraOffset v in
  let screenX := float64_of_int x [+] camX
                 [-] float64_of_int (Rectangle.Left (screenRect v)) in
  let screenY := float64_of_int y [+] camY
                 [-] float64_of_int (Rectangle.Top (screenRect v)) in
  (screenX, screenY).

Definition OrthoToScreen v (x y : F) : Z * Z :=
  let '(camOrthoX, camOrthoY) := getCameraOffset v in
  let orthoX := int_of_float64 (math_Floor
    (x [-] camOrthoX [+] float64_of_int (Rectangle.Left (screenRect v)))) in
  let orthoY := int_of_float64 (math_Floor
    (y [-] camOrthoY [+] float64_of_int (Rectangle.Top (screenRect v)))) in
  (orthoX, orthoY).

Definition OrthoToScreenF v (x y : F) : F * F :=
  let '(camOrthoX, camOrthoY) := getCameraOffset v in
  let orthoX :=
    x [-] camOrthoX [+] float64_of_int (Rectangle.Left (screenRect v)) in
  let orthoY :=
    y [-] camOrthoY [+] float64_of_int (Rectangle.Top (screenRect v)) in
  (orthoX, orthoY).

(** A call [f(g(...))] passes the two results of [g] to [f]: [uncurry]. *)
Definition WorldToScreen v (x y : F) : Z * Z :=
  uncurry (OrthoToScreen v) (WorldToOrtho v x y).

Definition WorldToScreenF v (x y : F) : F * F :=
  uncurry (OrthoToScreenF v) (WorldToOrtho v x y).

Definition ScreenToWorld v (x y : Z) : F * F :=
  uncurry (OrthoToWorld v) (ScreenToOrtho v x y).

Definition IsOrthoRectVisible v (x1 y1 x2 y2 : F) : bool :=
  let '(screenX1, screenY1) := OrthoToScreen v x1 y1 in
  let '(screenX2, screenY2) := OrthoToScreen v x2 y2 in
  negb ((screenX1 >=? Rectangle.Width (defaultScreenRect v))
        || (screenX2 <? 0)
        || (screenY1 >=? Rectangle.Height (defaultScreenRect v))
        || (screenY2 <? 0)).

Definition IsTileVisible v (x y : F) : bool :=
  let '(orthoX1, orthoY1) := WorldToOrtho v (x [-] float64_of_int 3) y in
  let '(orthoX2, orthoY2) := WorldToOrtho v (x [+] float64_of_int 3) y in
  IsOrthoRectVisible v orthoX1 orthoY1 orthoX2 orthoY2.

Definition IsTileRectVisible v (rect : Rectangle.t) : bool :=
  let left := float64_of_int
    (GoInt.mul (GoInt.sub (Rectangle.Left rect) (Rectangle.Bottom rect)) 80) in
  let top := float64_of_int
    (GoInt.mul (GoInt.add (Rectangle.Left rect) (Rectangle.Top rect)) 40) in
  let right := float64_of_int
    (GoInt.mul (GoInt.sub (Rectangle.Right rect) (Rectangle.Top rect)) 80) in
  let bottom := float64_of_int
    (GoInt.mul (GoInt.add (Rectangle.Right rect) (Rectangle.Bottom rect)) 40) in
  IsOrthoRectVisible v left top right bottom.

Definition GetTranslationOrtho v : F * F :=
  (worldTrans.x (transCurrent v), worldTrans.y (transCurrent v)).

Definition GetTranslationScreen v : Z * Z :=
  OrthoToScreen v (worldTrans.x (transCurrent v))
                  (worldTrans.y (transCurrent v)).

Definition PushTranslationOrtho v (x y : F) : Viewport F :=
  {| defaultScreenRect := defaultScreenRect v;
     screenRect := screenRect v;
     transStack := transStack v ++ [transCurrent v];
     transCurrent :=
       worldTrans.mk (worldTrans.x (transCurrent v) [+] x)
                     (worldTrans.y (transCurrent v) [+] y);
     camera := camera v;
     align := align v |}.

Definition PushTranslationWorld v (x y : F) : Viewport F :=
  uncurry (PushTranslationOrtho v) (WorldToOrtho v x y).

Definition PushTranslationScreen v (x y : Z) : Viewport F :=
  uncurry (PushTranslationOrtho v) (ScreenToOrtho v x y).

Definition PopTranslation v : result (Viewport F) :=
  let count := List.length (transStack v) in
  if Nat.eqb count 0 then Panic "empty stack"
  else
    Ok {| defaultScreenRect := defaultScreenRect v;
          screenRect := screenRect v;
          transStack := firstn (count - 1) (transStack v);
          transCurrent := nth (count - 1) (transStack v) (transCurrent v);
          camera := camera v;
          align := align v |}.

Definition set_screenRect v (r : Rectangle.t) (a : Z) : Viewport F :=
  {| defaultScreenRect := defaultScreenRect v;
     screenRect := r;
     transStack := transStack v;
     transCurrent := transCurrent v;
     camera := camera v;
     align := a |}.

Definition toLeft v : Viewport F :=
  if align v =? left then v
  else
    let d := defaultScreenRect v in
    let s := screenRect v in
    set_screenRect v
      (Rectangle.mk
         (GoInt.add (Rectangle.Left d) (GoInt.quot (Rectangle.Width d) 2))
         (Rectangle.Top s)
         (GoInt.quot (Rectangle.Width d) 2)
         (Rectangle.Height s))
      left.

Definition toRight v : Viewport F :=
  if align v =? right then v
  else
    let d := defaultScreenRect v in
    let s := screenRect v in
    set_screenRect v
      (Rectangle.mk
         (Rectangle.Left s)
         (Rectangle.Top s)
         (GoInt.quot (Rectangle.Width d) 2)
         (Rectangle.Height s))
      right.

Definition resetAlign v : Viewport F :=
  if align v =? center then v
  else
    let d := defaultScreenRect v in
    let s := screenRect v in
    set_screenRect v
      (Rectangle.mk
         (Rectangle.Left d)
         (Rectangle.Top s)
         (Rectangle.Width d)
         (Rectangle.Height s))
      center.

(* ----------------------------------------------------------------- *)
(** *** Sequences of calls *)

(** [PushTranslationOrtho] called once per element of [ts], in order. *)
Fixpoint pushAll (ts : list (F * F)) v : Viewport F :=
match ts with
| [] => v
| (x, y) :: rest => pushAll rest (PushTranslationOrtho v x y)
end.

(** [PopTranslation] called [n] times; a panic ends the sequence. *)
Fixpoint popN (n : nat) v : result (Viewport F) :=
match n with
| O => Ok v
| S k => bind (PopTranslation v) (popN k)
end.

(** The three alignment transitions. *)
Inductive AlignOp : Type := ToLeft | ToRight | ResetAlign.

Definition applyAlign v (op : AlignOp) : Viewport F :=
match op with
| ToLeft => toLeft v
| ToRight => toRight v
| ResetAlign => resetAlign v
end.

Definition alignments (ops : list AlignOp) v : Viewport F :=
fold_left applyAlign ops v.

(* ----------------------------------------------------------------- *)
(** *** Relations between two viewport states *)

(** The two states differ at most in [transStack] and [transCurrent]. *)
Definition agree_except_translation (v1 v2 : Viewport F) : Prop :=
defaultScreenRect v1 = defaultScreenRect v2 /\
screenRect v1 = screenRect v2 /\
camera v1 = camera v2 /\
align v1 = align v2.

(** The two states differ at most in [align] and in the two fields of
    [screenRect] that the alignment transitions assign, [Left] and [Width]. *)
Definition agree_except_alignment (v1 v2 : Viewport F) : Prop :=
defaultScreenRect v1 = defaultScreenRect v2 /\
Rectangle.Top (screenRect v1) = Rectangle.Top (screenRect v2) /\
Rectangle.Height (screenRect v1) = Rectangle.Height (screenRect v2) /\
transStack v1 = transStack v2 /\
transCurrent v1 = transCurrent v2 /\
camera v1 = camera v2.

(** The two states differ at most in [align], [transStack] and
    [transCurrent]: they have the same rectangles and the same camera. *)
Definition agree_on_geometry (v1 v2 : Viewport F) : Prop :=
defaultScreenRect v1 = defaultScreenRect v2 /\
screenRect v1 = screenRect v2 /\
camera v1 = camera v2.

(** What the alignment transitions maintain of [screenRect]. *)
Definition alignment_invariant v : Prop :=
let d := defaultScreenRect v in
let s := screenRect v in
Rectangle.Top s = Rectangle.Top d /\
Rectangle.Height s = Rectangle.Height d /\
((align v = center /\ s = d) \/
 (align v = left /\
  Rectangle.Width s = GoInt.quot (Rectangle.Width d) 2 /\
  Rectangle.Left s =
    GoInt.add (Rectangle.Left d) (GoInt.quot (Rectangle.Width d) 2)) \/
 (align v = right /\
  Rectangle.Width s = GoInt.quot (Rectangle.Width d) 2 /\
  (Rectangle.Left s = Rectangle.Left d \/
   Rectangle.Left s =
     GoInt.add (Rectangle.Left d) (GoInt.quot (Rectangle.Width d) 2)))).

End ViewportOps.

(** The position of the camera, or the zero values without one. *)
Definition cameraPosition {F} `{Float64 F} (v : Viewport F) : F * F :=
match camera v with
| Some c => Camera.GetPosition c
| None => (float64_zero, float64_zero)
end.

(** A real number whose floor fits an [int]. *)
Definition fits_int (r : R) : Prop :=
(IZR GoInt.min_int <= r < IZR GoInt.max_int + 1)%R.

(** The viewport of the examples: the full 800 by 600 screen, no camera. *)
Definition screen800x600 {F} `{Float64 F} : Viewport F :=
NewViewport 0 0 800 600.

(* ----------------------------------------------------------------- *)
(** *** Sequences of calls on the translation stack *)

(** One call of the translation-stack interface. *)
Inductive StackOp (F : Type) : Type :=
| Push (x y : F)
| PushWorld (x y : F)
| PushScreen (x y : Z)
| Pop.

Arguments Push {F} x y.
Arguments PushWorld {F} x y.
Arguments PushScreen {F} x y.
Arguments Pop {F}.

Definition isPush {F} (op : StackOp F) : bool :=
match op with
| Pop => false
| _ => true
end.

Definition applyStackOp {F} `{Float64 F} (v : Viewport F) (op : StackOp F)
  : result (Viewport F) :=
match op with
| Push x y => Ok (PushTranslationOrtho v x y)
| PushWorld x y => Ok (PushTranslationWorld v x y)
| PushScreen x y => Ok (PushTranslationScreen v x y)
| Pop => PopTranslation v
end.

(** The calls of [ops] in order; a panic ends the sequence. *)
Fixpoint runStack {F} `{Float64 F} (ops : list (StackOp F)) (v : Viewport F)
  : result (Viewport F) :=
match ops with
| [] => Ok v
| op :: rest => bind (applyStackOp v op) (runStack rest)
end.

(** The depth of the stack after [ops], from depth [d]; [None] when a
    [Pop] meets depth 0. *)
Fixpoint depthAfter {F} (ops : list (StackOp F)) (d : nat) : option nat :=
match ops with
| [] => Some d
| Pop :: rest =>
    match d with
    | O => None
    | S k => depthAfter rest k
    end
| _ :: rest => depthAfter rest (S d)
end.

(** Well-nested sequences: every push is closed by its own pop. *)
Inductive balanced {F} : list (StackOp F) -> Prop :=
| balanced_nil : balanced []
| balanced_wrap (p : StackOp F) (ops : list (StackOp F)) :
    isPush p = true -> balanced ops -> balanced (p :: ops ++ [Pop])
| balanced_app (a b : list (StackOp F)) :
    balanced a -> balanced b -> balanced (a ++ b).

(** The running sum of the pushed offsets, added in push order. *)
Definition sumTranslations {F} `{Float64 F} (ts : list (F * F)) (start : F * F)
  : F * F :=
fold_left (fun acc t => (fadd (fst acc) (fst t), fadd (snd acc) (snd t)))
          ts start.

(* ----------------------------------------------------------------- *)
(** *** Ranges *)

(** The screen coordinates of the ortho point fit an [int]. *)
Definition on_int_screen (v : Viewport R) (x y : R) : Prop :=
fits_int (fst (OrthoToScreenF v x y)) /\
fits_int (snd (OrthoToScreenF v x y)).

(** A rectangle whose fields are small enough for the integer arithmetic
    of the culling code not to wrap. *)
Definition small_rect (r : Rectangle.t) : Prop :=
- 1000000000 <= Rectangle.Left r <= 1000000000 /\
- 1000000000 <= Rectangle.Top r <= 1000000000 /\
0 <= Rectangle.Width r <= 1000000000 /\
0 <= Rectangle.Height r <= 1000000000.

(* ================================================================= *)
(** ** Facts about the arithmetic *)

(** Splits a conjunction into its parts, and nothing else. *)
Ltac split_all := repeat match goal with |- _ /\ _ => split end.

Lemma wrap_in_range z : GoInt.in_range z = true -> GoInt.wrap z = z.
Proof.
  unfold GoInt.in_range, GoInt.wrap, GoInt.min_int, GoInt.max_int.
  rewrite andb_true_iff, !Z.leb_le. intros [Hlo Hhi].
  rewrite Z.mod_small; lia.
Qed.

Lemma wrap_range z : GoInt.in_range (GoInt.wrap z) = true.
Proof.
  unfold GoInt.in_range, GoInt.wrap, GoInt.min_int, GoInt.max_int.
  rewrite andb_true_iff, !Z.leb_le.
  pose proof (Z.mod_pos_bound (z + 2 ^ 63) (2 ^ 64) ltac:(lia)). lia.
Qed.

Lemma in_range_bounds z :
  GoInt.in_range z = true <-> GoInt.min_int <= z <= GoInt.max_int.
Proof.
  unfold GoInt.in_range. rewrite andb_true_iff, !Z.leb_le. tauto.
Qed.

Lemma Ztrunc_IZR z : RealFloat.Ztrunc (IZR z) = z.
Proof.
  unfold RealFloat.Ztrunc. destruct (Rle_dec 0 (IZR z)).
  - apply ZfloorZ.
  - unfold Zceil. rewrite ZfloorNZ. lia.
Qed.

(** On the reals, [int(math.Floor(r))] is the floor of [r] when it fits. *)
Lemma to_int_floor r :
  GoInt.in_range (Zfloor r) = true ->
  RealFloat.to_int (RealFloat.floor r) = Zfloor r.
Proof.
  intros Hr. unfold RealFloat.to_int, RealFloat.floor, int_of_Z.
  rewrite Ztrunc_IZR, Hr. reflexivity.
Qed.

Lemma fits_int_floor r : fits_int r -> GoInt.in_range (Zfloor r) = true.
Proof.
  unfold fits_int. intros [Hlo Hhi]. apply in_range_bounds. split.
  - apply Zfloor_lub. exact Hlo.
  - pose proof (Zfloor_bound r) as [Hb _].
    assert (Hlt : (IZR (Zfloor r) < IZR (GoInt.max_int + 1))%R)
      by (rewrite plus_IZR; lra).
    apply lt_IZR in Hlt. lia.
Qed.

Lemma to_int_floor_IZR z :
  GoInt.in_range z = true -> RealFloat.to_int (RealFloat.floor (IZR z)) = z.
Proof.
  intros Hz. rewrite to_int_floor; rewrite ZfloorZ; auto.
Qed.

(** The floor rounds down, where a truncation rounds toward zero. *)
Example floor_not_truncation :
  Binary64.to_int (Binary64.floor 0.5%float) = 0 /\
  Binary64.to_int (Binary64.floor (-0.5)%float) = -1 /\
  Binary64.to_int (-0.5)%float = 0 /\
  Binary64.to_int (Binary64.floor 379.75%float) = 379 /\
  Binary64.to_int (Binary64.floor (-380)%float) = -380.
Proof. vm_compute. repeat split; reflexivity. Qed.

(* ================================================================= *)
(** ** Composite conversions *)

Section Composition.

Context {F : Type} `{Float64 F}.

(** C6: the world/screen conversions are the compositions of the
    world/ortho and ortho/screen conversions: [WorldToScreen] is
    [OrthoToScreen] after [WorldToOrtho], [WorldToScreenF] is
    [OrthoToScreenF] after [WorldToOrtho], and [ScreenToWorld] is
    [OrthoToWorld] after [ScreenToOrtho], for every viewport and input. *)
Theorem world_screen_compositions :
  forall (v : Viewport F),
    (forall x y : F,
        WorldToScreen v x y =
        let '(ox, oy) := WorldToOrtho v x y in OrthoToScreen v ox oy) /\
    (forall x y : F,
        WorldToScreenF v x y =
        let '(ox, oy) := WorldToOrtho v x y in OrthoToScreenF v ox oy) /\
    (forall x y : Z,
        ScreenToWorld v x y =
        let '(ox, oy) := ScreenToOrtho v x y in OrthoToWorld v ox oy).
Proof.
  intros v. split_all; intros x y.
  - unfold WorldToScreen. destruct (WorldToOrtho v x y). reflexivity.
  - unfold WorldToScreenF. destruct (WorldToOrtho v x y). reflexivity.
  - unfold ScreenToWorld. destruct (ScreenToOrtho v x y). reflexivity.
Qed.

(** The same conversions written out: nothing but the formulas of the
    two steps appears in them. *)
Lemma WorldToScreen_unfold (v : Viewport F) (x y : F) :
  WorldToScreen v x y =
  OrthoToScreen v (fsub x y [*] float64_of_int 80)%go
                  (fadd x y [*] float64_of_int 40)%go.
Proof. reflexivity. Qed.

Lemma WorldToScreenF_unfold (v : Viewport F) (x y : F) :
  WorldToScreenF v x y =
  OrthoToScreenF v (fsub x y [*] float64_of_int 80)%go
                   (fadd x y [*] float64_of_int 40)%go.
Proof. reflexivity. Qed.

End Composition.

(* ================================================================= *)
(** ** What the conversions and the culling read of the state *)

Section Footprint.

Context {F : Type} `{Float64 F}.

Lemma getCameraOffset_geometry (v1 v2 : Viewport F) :
  screenRect v1 = screenRect v2 -> camera v1 = camera v2 ->
  getCameraOffset v1 = getCameraOffset v2.
Proof.
  intros Hs Hc. unfold getCameraOffset. rewrite Hs, Hc. reflexivity.
Qed.

Lemma OrthoToScreen_geometry (v1 v2 : Viewport F) x y :
  screenRect v1 = screenRect v2 -> camera v1 = camera v2 ->
  OrthoToScreen v1 x y = OrthoToScreen v2 x y.
Proof.
  intros Hs Hc. unfold OrthoToScreen.
  rewrite (getCameraOffset_geometry v1 v2 Hs Hc), Hs. reflexivity.
Qed.

Lemma OrthoToScreenF_geometry (v1 v2 : Viewport F) x y :
  screenRect v1 = screenRect v2 -> camera v1 = camera v2 ->
  OrthoToScreenF v1 x y = OrthoToScreenF v2 x y.
Proof.
  intros Hs Hc. unfold OrthoToScreenF.
  rewrite (getCameraOffset_geometry v1 v2 Hs Hc), Hs. reflexivity.
Qed.

Lemma ScreenToOrtho_geometry (v1 v2 : Viewport F) x y :
  screenRect v1 = screenRect v2 -> camera v1 = camera v2 ->
  ScreenToOrtho v1 x y = ScreenToOrtho v2 x y.
Proof.
  intros Hs Hc. unfold ScreenToOrtho.
  rewrite (getCameraOffset_geometry v1 v2 Hs Hc), Hs. reflexivity.
Qed.

Lemma IsOrthoRectVisible_geometry (v1 v2 : Viewport F) x1 y1 x2 y2 :
  agree_on_geometry v1 v2 ->
  IsOrthoRectVisible v1 x1 y1 x2 y2 = IsOrthoRectVisible v2 x1 y1 x2 y2.
Proof.
  intros (Hd & Hs & Hc). unfold IsOrthoRectVisible.
  rewrite !(OrthoToScreen_geometry v1 v2 _ _ Hs Hc), Hd. reflexivity.
Qed.

Lemma PushTranslationOrtho_agree (v : Viewport F) x y :
  agree_except_translation v (PushTranslationOrtho v x y).
Proof. repeat split. Qed.

(** C10: two viewport states that differ only in [transStack] and
    [transCurrent] give the same results in all eight coordinate
    conversions and all three visibility tests. *)
Theorem translation_state_not_read :
  forall (v1 v2 : Viewport F),
    agree_except_translation v1 v2 ->
    (forall x y, WorldToScreen v1 x y = WorldToScreen v2 x y) /\
    (forall x y, WorldToScreenF v1 x y = WorldToScreenF v2 x y) /\
    (forall x y, ScreenToWorld v1 x y = ScreenToWorld v2 x y) /\
    (forall x y, OrthoToScreen v1 x y = OrthoToScreen v2 x y) /\
    (forall x y, OrthoToScreenF v1 x y = OrthoToScreenF v2 x y) /\
    (forall x y, ScreenToOrtho v1 x y = ScreenToOrtho v2 x y) /\
    (forall x y, WorldToOrtho v1 x y = WorldToOrtho v2 x y) /\
    (forall x y, OrthoToWorld v1 x y = OrthoToWorld v2 x y) /\
    (forall x y, IsTileVisible v1 x y = IsTileVisible v2 x y) /\
    (forall rect, IsTileRectVisible v1 rect = IsTileRectVisible v2 rect) /\
    (forall x1 y1 x2 y2,
        IsOrthoRectVisible v1 x1 y1 x2 y2 = IsOrthoRectVisible v2 x1 y1 x2 y2).
Proof.
  intros v1 v2 (Hd & Hs & Hc & _).
  assert (Hg : agree_on_geometry v1 v2) by (repeat split; assumption).
  split_all; intros.
  - unfold WorldToScreen, uncurry, WorldToOrtho.
    apply OrthoToScreen_geometry; assumption.
  - unfold WorldToScreenF, uncurry, WorldToOrtho.
    apply OrthoToScreenF_geometry; assumption.
  - unfold ScreenToWorld.
    rewrite (ScreenToOrtho_geometry v1 v2 x y Hs Hc). reflexivity.
  - apply OrthoToScreen_geometry; assumption.
  - apply OrthoToScreenF_geometry; assumption.
  - apply ScreenToOrtho_geometry; assumption.
  - reflexivity.
  - reflexivity.
  - unfold IsTileVisible, WorldToOrtho.
    apply IsOrthoRectVisible_geometry; assumption.
  - unfold IsTileRectVisible.
    apply IsOrthoRectVisible_geometry; assumption.
  - apply IsOrthoRectVisible_geometry; assumption.
Qed.

End Footprint.

(** A push changes what [GetTranslationOrtho] returns and leaves a
    conversion as it was. *)
Lemma translation_state_not_read_witness :
  GetTranslationOrtho (PushTranslationOrtho screen800x600 5%float 7%float)
    <> GetTranslationOrtho (screen800x600 (F := float)) /\
  OrthoToScreen (PushTranslationOrtho screen800x600 5%float 7%float)
                0%float 80%float
    = OrthoToScreen screen800x600 0%float 80%float.
Proof.
  split.
  - vm_compute. discriminate.
  - apply (translation_state_not_read
             (PushTranslationOrtho_agree screen800x600 5%float 7%float)).
Defined.

(* ================================================================= *)
(** ** The camera offset *)

Section CameraOffset.

Context {F : Type} `{Float64 F}.

Lemma getCameraOffset_eq (v : Viewport F) :
  getCameraOffset v =
  (fsub (fst (cameraPosition v))
        (float64_of_int (GoInt.quot (Rectangle.Width (screenRect v)) 2)),
   fsub (snd (cameraPosition v))
        (float64_of_int (GoInt.quot (Rectangle.Height (screenRect v)) 2))).
Proof.
  unfold getCameraOffset, cameraPosition.
  destruct (camera v) as [c |].
  - destruct (Camera.GetPosition c). reflexivity.
  - reflexivity.
Qed.

Lemma OrthoToScreen_eq (v : Viewport F) (x y : F) :
  OrthoToScreen v x y =
  (int_of_float64 (math_Floor
     (x [-] fst (getCameraOffset v)
        [+] float64_of_int (Rectangle.Left (screenRect v)))%go),
   int_of_float64 (math_Floor
     (y [-] snd (getCameraOffset v)
        [+] float64_of_int (Rectangle.Top (screenRect v)))%go)).
Proof. unfold OrthoToScreen. destruct (getCameraOffset v). reflexivity. Qed.

Lemma OrthoToScreenF_eq (v : Viewport F) (x y : F) :
  OrthoToScreenF v x y =
  ((x [-] fst (getCameraOffset v)
      [+] float64_of_int (Rectangle.Left (screenRect v)))%go,
   (y [-] snd (getCameraOffset v)
      [+] float64_of_int (Rectangle.Top (screenRect v)))%go).
Proof. unfold OrthoToScreenF. destruct (getCameraOffset v). reflexivity. Qed.

Lemma ScreenToOrtho_eq (v : Viewport F) (x y : Z) :
  ScreenToOrtho v x y =
  ((float64_of_int x [+] fst (getCameraOffset v)
      [-] float64_of_int (Rectangle.Left (screenRect v)))%go,
   (float64_of_int y [+] snd (getCameraOffset v)
      [-] float64_of_int (Rectangle.Top (screenRect v)))%go).
Proof. unfold ScreenToOrtho. destruct (getCameraOffset v). reflexivity. Qed.

End CameraOffset.


(** On the reals, the integer variant is the floor of the float variant. *)
Lemma OrthoToScreen_R (v : Viewport R) (x y : R) :
  fits_int (fst (OrthoToScreenF v x y)) ->
  fits_int (snd (OrthoToScreenF v x y)) ->
  OrthoToScreen v x y =
  (Zfloor (fst (OrthoToScreenF v x y)), Zfloor (snd (OrthoToScreenF v x y))).
Proof.
  rewrite OrthoToScreen_eq, OrthoToScreenF_eq. cbn [fst snd].
  intros Hx Hy. cbn [int_of_float64 math_Floor Float64_R].
  rewrite !to_int_floor by (apply fits_int_floor; assumption).
  reflexivity.
Qed.

(** Evaluation of the real-number model on the 800 by 600 viewports: the
    integer halvings are computed, the rest is linear arithmetic. *)
Lemma quot_800 : GoInt.quot 800 2 = 400.
Proof. reflexivity. Qed.

Lemma quot_600 : GoInt.quot 600 2 = 300.
Proof. reflexivity. Qed.

Lemma quot_400 : GoInt.quot 400 2 = 200.
Proof. reflexivity. Qed.

Lemma add_0_400 : GoInt.add 0 400 = 400.
Proof. reflexivity. Qed.

Ltac eval_R_viewport :=
  cbn - [GoInt.quot GoInt.add IZR Rplus Rminus Zfloor];
  rewrite ?quot_800, ?quot_600, ?add_0_400, ?quot_400.

Lemma fits_int_small (r : R) :
  (-1000000 <= r <= 1000000)%R -> fits_int r.
Proof.
  intros [Hlo Hhi]. unfold fits_int.
  assert (Hmin : (IZR GoInt.min_int <= -1000000)%R)
    by (apply IZR_le; unfold GoInt.min_int; lia).
  assert (Hmax : (1000000 <= IZR GoInt.max_int)%R)
    by (apply IZR_le; unfold GoInt.max_int; lia).
  split; lra.
Qed.

Ltac fits := apply fits_int_small; lra.

Lemma OrthoToScreen_R_value (v : Viewport R) (x y : R) (sx sy : Z) :
  GoInt.in_range sx = true -> GoInt.in_range sy = true ->
  (IZR sx <= fst (OrthoToScreenF v x y) < IZR sx + 1)%R ->
  (IZR sy <= snd (OrthoToScreenF v x y) < IZR sy + 1)%R ->
  OrthoToScreen v x y = (sx, sy).
Proof.
  intros Rx Ry Hx Hy.
  rewrite OrthoToScreen_eq. rewrite OrthoToScreenF_eq in Hx, Hy.
  cbn [fst snd] in Hx, Hy. cbn [int_of_float64 math_Floor Float64_R].
  rewrite !to_int_floor.
  - rewrite (Zfloor_eq sx _ Hx), (Zfloor_eq sy _ Hy). reflexivity.
  - rewrite (Zfloor_eq sy _ Hy). exact Ry.
  - rewrite (Zfloor_eq sx _ Hx). exact Rx.
Qed.

Lemma getCameraOffset_800x600_R :
  getCameraOffset (screen800x600 (F := R)) = ((-400)%R, (-300)%R).
Proof.
  unfold screen800x600. rewrite getCameraOffset_eq. eval_R_viewport.
  f_equal; lra.
Qed.

Lemma OrthoToScreenF_800x600_R (x y : R) :
  OrthoToScreenF (screen800x600 (F := R)) x y = ((x + 400)%R, (y + 300)%R).
Proof.
  rewrite OrthoToScreenF_eq, getCameraOffset_800x600_R.
  cbn - [IZR Rplus Rminus]. f_equal; lra.
Qed.

(** C8: the camera offset is the camera position, or (0, 0) without a
    camera, minus half of the width and height of the current
    [screenRect], halved as integers; the three ortho/screen conversions
    use it; and without a camera on the 800 by 600 screen the offset is
    (-400, -300) and [OrthoToScreen 0 80] is (400, 380). *)
Theorem camera_offset_recentres_on_screenRect :
  (forall F (FO : Float64 F) (v : Viewport F),
      getCameraOffset v =
      (fsub (fst (cameraPosition v))
            (float64_of_int (GoInt.quot (Rectangle.Width (screenRect v)) 2)),
       fsub (snd (cameraPosition v))
            (float64_of_int (GoInt.quot (Rectangle.Height (screenRect v)) 2)))
      /\
      (forall x y,
          OrthoToScreenF v x y =
          ((x [-] fst (getCameraOffset v)
              [+] float64_of_int (Rectangle.Left (screenRect v)))%go,
           (y [-] snd (getCameraOffset v)
              [+] float64_of_int (Rectangle.Top (screenRect v)))%go)) /\
      (forall x y,
          OrthoToScreen v x y =
          (int_of_float64 (math_Floor (fst (OrthoToScreenF v x y))),
           int_of_float64 (math_Floor (snd (OrthoToScreenF v x y))))) /\
      (forall x y,
          ScreenToOrtho v x y =
          ((float64_of_int x [+] fst (getCameraOffset v)
              [-] float64_of_int (Rectangle.Left (screenRect v)))%go,
           (float64_of_int y [+] snd (getCameraOffset v)
              [-] float64_of_int (Rectangle.Top (screenRect v)))%go)) /\
      cameraPosition (SetCamera v None) = (float64_zero, float64_zero) /\
      (forall p, cameraPosition (SetCamera v (Some (Camera.mk p))) = p)) /\
  (* integer halving, of the current rectangle *)
  GoInt.quot 801 2 = 400 /\ GoInt.quot (-801) 2 = -400 /\
  getCameraOffset (toLeft (screen800x600 (F := float)))
    = ((-200)%float, (-300)%float) /\
  getCameraOffset (toLeft (screen800x600 (F := R)))
    = ((-200)%R, (-300)%R) /\
  (* the example, in binary64 and over the reals *)
  getCameraOffset (screen800x600 (F := float))
    = ((-400)%float, (-300)%float) /\
  OrthoToScreen screen800x600 0%float 80%float = (400, 380) /\
  getCameraOffset (screen800x600 (F := R)) = ((-400)%R, (-300)%R) /\
  OrthoToScreen screen800x600 0%R 80%R = (400, 380).
Proof.
  split_all.
  - intros F FO v. split_all.
    + apply getCameraOffset_eq.
    + apply OrthoToScreenF_eq.
    + intros x y. rewrite OrthoToScreen_eq, OrthoToScreenF_eq. reflexivity.
    + apply ScreenToOrtho_eq.
    + reflexivity.
    + reflexivity.
  - reflexivity.
  - reflexivity.
  - vm_compute. reflexivity.
  - rewrite getCameraOffset_eq. unfold screen800x600. eval_R_viewport.
    f_equal; lra.
  - vm_compute. reflexivity.
  - vm_compute. reflexivity.
  - apply getCameraOffset_800x600_R.
  - apply OrthoToScreen_R_value;
      [ reflexivity | reflexivity
      | rewrite OrthoToScreenF_800x600_R; cbn [fst snd]; lra
      | rewrite OrthoToScreenF_800x600_R; cbn [fst snd]; lra ].
Qed.

(* ================================================================= *)
(** ** Visibility culling *)

Section Culling.

Context {F : Type} `{Float64 F}.

Lemma IsOrthoRectVisible_eq (v : Viewport F) (x1 y1 x2 y2 : F) :
  IsOrthoRectVisible v x1 y1 x2 y2 =
  negb ((fst (OrthoToScreen v x1 y1) >=? Rectangle.Width (defaultScreenRect v))
        || (fst (OrthoToScreen v x2 y2) <? 0)
        || (snd (OrthoToScreen v x1 y1)
              >=? Rectangle.Height (defaultScreenRect v))
        || (snd (OrthoToScreen v x2 y2) <? 0)).
Proof.
  unfold IsOrthoRectVisible.
  destruct (OrthoToScreen v x1 y1), (OrthoToScreen v x2 y2). reflexivity.
Qed.

(** The test is the half-open disjointness test against the default
    rectangle's width and height. *)
Lemma IsOrthoRectVisible_false_iff (v : Viewport F) (x1 y1 x2 y2 : F) :
  IsOrthoRectVisible v x1 y1 x2 y2 = false <->
  fst (OrthoToScreen v x1 y1) >= Rectangle.Width (defaultScreenRect v) \/
  fst (OrthoToScreen v x2 y2) < 0 \/
  snd (OrthoToScreen v x1 y1) >= Rectangle.Height (defaultScreenRect v) \/
  snd (OrthoToScreen v x2 y2) < 0.
Proof.
  rewrite IsOrthoRectVisible_eq, negb_false_iff, !orb_true_iff.
  rewrite !Z.geb_le, !Z.ltb_lt. intuition lia.
Qed.

(** C7, as amended: [IsOrthoRectVisible] converts both corners with
    [OrthoToScreen] and returns false exactly when [screenX1 >= width] or
    [screenX2 < 0] or [screenY1 >= height] or [screenY2 < 0], width and
    height being those of [defaultScreenRect]; a point at screen
    coordinates (width, 0) is not visible; and a point at screen
    coordinates (width - 1, 0) is visible when the default rectangle has a
    positive width and a positive height. *)
Theorem IsOrthoRectVisible_half_open :
  forall (v : Viewport F),
    let width := Rectangle.Width (defaultScreenRect v) in
    let height := Rectangle.Height (defaultScreenRect v) in
    (forall x1 y1 x2 y2,
        IsOrthoRectVisible v x1 y1 x2 y2 = false <->
        fst (OrthoToScreen v x1 y1) >= width \/
        fst (OrthoToScreen v x2 y2) < 0 \/
        snd (OrthoToScreen v x1 y1) >= height \/
        snd (OrthoToScreen v x2 y2) < 0) /\
    (forall x y,
        OrthoToScreen v x y = (width, 0) ->
        IsOrthoRectVisible v x y x y = false) /\
    (forall x y,
        0 < width -> 0 < height ->
        OrthoToScreen v x y = (width - 1, 0) ->
        IsOrthoRectVisible v x y x y = true).
Proof.
  intros v width height. split_all.
  - intros. apply IsOrthoRectVisible_false_iff.
  - intros x y Hxy. apply IsOrthoRectVisible_false_iff.
    rewrite Hxy. cbn [fst snd]. left. fold width. lia.
  - intros x y Hw Hh Hxy.
    destruct (IsOrthoRectVisible v x y x y) eqn:Hvis; [reflexivity |].
    apply IsOrthoRectVisible_false_iff in Hvis.
    rewrite Hxy in Hvis. cbn [fst snd] in Hvis. fold width height in Hvis.
    lia.
Qed.

End Culling.

(** The boundary on the 800 by 600 screen: the pixel column 799 is
    inside, the column 800 is outside. *)
Lemma IsOrthoRectVisible_half_open_witness :
  IsOrthoRectVisible screen800x600
    399%float (-300)%float 399%float (-300)%float = true /\
  IsOrthoRectVisible screen800x600
    400%float (-300)%float 400%float (-300)%float = false.
Proof.
  pose proof (IsOrthoRectVisible_half_open (screen800x600 (F := float)))
    as (_ & Hout & Hin).
  split.
  - apply Hin; [reflexivity | reflexivity | vm_compute; reflexivity].
  - apply Hout. vm_compute. reflexivity.
Defined.

(** C7, as stated, fails on a default rectangle without height: the point
    at screen coordinates (width - 1, 0) is reported not visible. *)
Lemma empty_screen_shows_nothing :
  let v := NewViewport (F := float) 0 0 800 0 in
  OrthoToScreen v 399%float 0%float
    = (Rectangle.Width (defaultScreenRect v) - 1, 0) /\
  IsOrthoRectVisible v 399%float 0%float 399%float 0%float = false.
Proof. vm_compute. split; reflexivity. Qed.

(* ----------------------------------------------------------------- *)
(** *** Culling and alignment *)

Lemma alignments_defaultScreenRect {F} `{Float64 F}
      (ops : list AlignOp) (v : Viewport F) :
  defaultScreenRect (alignments ops v) = defaultScreenRect v.
Proof.
  unfold alignments. revert v.
  induction ops as [| op ops IH]; intros v; cbn [fold_left].
  - reflexivity.
  - rewrite IH. destruct op; cbn [applyAlign].
    + unfold toLeft. destruct (align v =? left); reflexivity.
    + unfold toRight. destruct (align v =? right); reflexivity.
    + unfold resetAlign. destruct (align v =? center); reflexivity.
Qed.

Lemma OrthoToScreenF_left_800x600_R (x y : R) :
  OrthoToScreenF (toLeft (screen800x600 (F := R))) x y
  = ((x + 600)%R, (y + 300)%R).
Proof.
  rewrite OrthoToScreenF_eq, getCameraOffset_eq.
  unfold screen800x600. eval_R_viewport. f_equal; lra.
Qed.

(** C1, as stated, fails: on the 800 by 600 screen the ortho point
    (300, 0) is at pixel column 700 in center mode and at column 900 in
    left mode, and only the first is inside the screen. *)
Lemma alignment_changes_culling :
  agree_except_alignment (screen800x600 (F := float)) (toLeft screen800x600) /\
  IsOrthoRectVisible screen800x600
    300%float 0%float 300%float 0%float = true /\
  IsOrthoRectVisible (toLeft screen800x600)
    300%float 0%float 300%float 0%float = false /\
  agree_except_alignment (screen800x600 (F := R)) (toLeft screen800x600) /\
  IsOrthoRectVisible screen800x600 300%R 0%R 300%R 0%R = true /\
  IsOrthoRectVisible (toLeft screen800x600) 300%R 0%R 300%R 0%R = false.
Proof.
  split_all.
  - repeat split.
  - vm_compute. reflexivity.
  - vm_compute. reflexivity.
  - repeat split.
  - assert (Hpx : OrthoToScreen screen800x600 300%R 0%R = (700, 300)).
    { apply OrthoToScreen_R_value;
        [ reflexivity | reflexivity
        | rewrite OrthoToScreenF_800x600_R; cbn [fst snd]; lra
        | rewrite OrthoToScreenF_800x600_R; cbn [fst snd]; lra ]. }
    rewrite IsOrthoRectVisible_eq, Hpx. reflexivity.
  - assert (Hpx : OrthoToScreen (toLeft screen800x600) 300%R 0%R = (900, 300)).
    { apply OrthoToScreen_R_value;
        [ reflexivity | reflexivity
        | rewrite OrthoToScreenF_left_800x600_R; cbn [fst snd]; lra
        | rewrite OrthoToScreenF_left_800x600_R; cbn [fst snd]; lra ]. }
    rewrite IsOrthoRectVisible_eq, Hpx. reflexivity.
Qed.

(** C1, as amended: two viewport states that are identical except for the
    [align] field (same [defaultScreenRect], [screenRect] and camera) give
    the same [IsOrthoRectVisible] for all ortho inputs, and no sequence of
    alignment transitions changes [defaultScreenRect], whose width and
    height are the bounds of the test. *)
Theorem culling_bounds_alignment_independent :
  forall F (FO : Float64 F),
    (forall (v1 v2 : Viewport F),
        agree_on_geometry v1 v2 ->
        forall x1 y1 x2 y2,
          IsOrthoRectVisible v1 x1 y1 x2 y2
          = IsOrthoRectVisible v2 x1 y1 x2 y2) /\
    (forall (v : Viewport F) (ops : list AlignOp),
        defaultScreenRect (alignments ops v) = defaultScreenRect v) /\
    (forall (v : Viewport F) x1 y1 x2 y2,
        IsOrthoRectVisible v x1 y1 x2 y2 =
        negb ((fst (OrthoToScreen v x1 y1)
                 >=? Rectangle.Width (defaultScreenRect v))
              || (fst (OrthoToScreen v x2 y2) <? 0)
              || (snd (OrthoToScreen v x1 y1)
                    >=? Rectangle.Height (defaultScreenRect v))
              || (snd (OrthoToScreen v x2 y2) <? 0))).
Proof.
  intros F FO. split_all.
  - intros v1 v2 Hg x1 y1 x2 y2. apply IsOrthoRectVisible_geometry. exact Hg.
  - intros v ops. apply alignments_defaultScreenRect.
  - intros. apply IsOrthoRectVisible_eq.
Qed.

(** Two states that differ in the [align] field only. *)
Lemma culling_bounds_alignment_independent_witness :
  IsOrthoRectVisible
    (set_screenRect screen800x600 (Rectangle.mk 0 0 800 600) left)
    300%float 0%float 300%float 0%float
  = IsOrthoRectVisible screen800x600 300%float 0%float 300%float 0%float.
Proof.
  apply (proj1 (culling_bounds_alignment_independent Float64_b64)).
  repeat split.
Defined.

(* ================================================================= *)
(** ** World and ortho space *)

(** C5: over the reals, [OrthoToWorld] after [WorldToOrtho] is the
    identity, for every viewport state; the two linear transforms
    [((x - y) * 80, (x + y) * 40)] and [((x/80 + y/40)/2, (y/40 - x/80)/2)]
    are inverses of each other. *)
Theorem OrthoToWorld_WorldToOrtho :
  forall (v : Viewport R) (x y : R),
    WorldToOrtho v x y = (((x - y) * 80)%R, ((x + y) * 40)%R) /\
    OrthoToWorld v x y
      = (((x / 80 + y / 40) / 2)%R, ((y / 40 - x / 80) / 2)%R) /\
    uncurry (OrthoToWorld v) (WorldToOrtho v x y) = (x, y) /\
    uncurry (WorldToOrtho v) (OrthoToWorld v x y) = (x, y).
Proof.
  intros v x y. split_all.
  - reflexivity.
  - reflexivity.
  - unfold WorldToOrtho, OrthoToWorld.
    cbn [uncurry fadd fsub fmul fdiv float64_of_int Float64_R].
    f_equal; lra.
  - unfold WorldToOrtho, OrthoToWorld.
    cbn [uncurry fadd fsub fmul fdiv float64_of_int Float64_R].
    f_equal; lra.
Qed.

(** In binary64 the round trip is exact on small integers and rounds
    otherwise: next to 1, the coordinate 2^-67 is lost. *)
Lemma OrthoToWorld_WorldToOrtho_binary64 :
  uncurry (OrthoToWorld screen800x600)
          (WorldToOrtho screen800x600 1%float 1%float)
    = (1%float, 1%float) /\
  uncurry (OrthoToWorld screen800x600)
          (WorldToOrtho screen800x600 1%float 0x1p-67%float)
    = (1%float, 0%float).
Proof. vm_compute. split; reflexivity. Qed.

(* ================================================================= *)
(** ** Ortho and screen space *)

Lemma OrthoToScreenF_ScreenToOrtho_R (v : Viewport R) (i j : Z) :
  uncurry (OrthoToScreenF v) (ScreenToOrtho v i j) = (IZR i, IZR j).
Proof.
  rewrite ScreenToOrtho_eq. cbn [uncurry]. rewrite OrthoToScreenF_eq.
  cbn [fadd fsub float64_of_int Float64_R]. f_equal; lra.
Qed.

Lemma fits_int_IZR z : GoInt.in_range z = true -> fits_int (IZR z).
Proof.
  intros Hz. apply in_range_bounds in Hz. destruct Hz as [Hlo Hhi].
  unfold fits_int. split.
  - apply IZR_le. exact Hlo.
  - apply IZR_le in Hhi. lra.
Qed.

Lemma OrthoToScreen_ScreenToOrtho_R (v : Viewport R) (i j : Z) :
  GoInt.in_range i = true -> GoInt.in_range j = true ->
  uncurry (OrthoToScreen v) (ScreenToOrtho v i j) = (i, j).
Proof.
  intros Hi Hj.
  pose proof (OrthoToScreenF_ScreenToOrtho_R v i j) as HF.
  destruct (ScreenToOrtho v i j) as [ox oy]. cbn [uncurry] in *.
  rewrite OrthoToScreen_R; rewrite HF; cbn [fst snd].
  - rewrite !ZfloorZ. reflexivity.
  - apply fits_int_IZR. exact Hi.
  - apply fits_int_IZR. exact Hj.
Qed.

Lemma ScreenToOrtho_OrthoToScreen_R (v : Viewport R) (x y : R) :
  fits_int (fst (OrthoToScreenF v x y)) ->
  fits_int (snd (OrthoToScreenF v x y)) ->
  uncurry (ScreenToOrtho v) (OrthoToScreen v x y) =
  ((x - (fst (OrthoToScreenF v x y)
         - IZR (Zfloor (fst (OrthoToScreenF v x y)))))%R,
   (y - (snd (OrthoToScreenF v x y)
         - IZR (Zfloor (snd (OrthoToScreenF v x y)))))%R).
Proof.
  intros Hx Hy. rewrite (OrthoToScreen_R v x y Hx Hy). cbn [uncurry].
  rewrite ScreenToOrtho_eq, OrthoToScreenF_eq.
  cbn [fadd fsub float64_of_int Float64_R fst snd]. f_equal; lra.
Qed.

(** C9, as stated, fails: [ScreenToOrtho] takes integer pixels, so it
    composes with the flooring [OrthoToScreen] only, and the fraction is
    lost. From (1/2, 0) the round trip returns (0, 0), in binary64 and
    over the reals. *)
Lemma screen_round_trip_loses_fraction :
  uncurry (ScreenToOrtho screen800x600)
          (OrthoToScreen screen800x600 0.5%float 0%float)
    = (0%float, 0%float) /\
  PrimFloat.eqb 0%float 0.5%float = false /\
  uncurry (ScreenToOrtho screen800x600)
          (OrthoToScreen screen800x600 (1 / 2)%R 0%R)
    = (0%R, 0%R) /\
  (0%R, 0%R) <> ((1 / 2)%R, 0%R).
Proof.
  split_all.
  - vm_compute. reflexivity.
  - vm_compute. reflexivity.
  - assert (Hpx : OrthoToScreen screen800x600 (1 / 2)%R 0%R = (400, 300)).
    { apply OrthoToScreen_R_value;
        [ reflexivity | reflexivity
        | rewrite OrthoToScreenF_800x600_R; cbn [fst snd]; lra
        | rewrite OrthoToScreenF_800x600_R; cbn [fst snd]; lra ]. }
    rewrite Hpx. cbn [uncurry].
    rewrite ScreenToOrtho_eq, getCameraOffset_800x600_R.
    cbn [fst snd fadd fsub float64_of_int Float64_R screenRect screen800x600
         NewViewport Rectangle.Left Rectangle.Top].
    f_equal; lra.
  - intros Heq. injection Heq as Heq. lra.
Qed.

(** C9, as amended: over the reals and for every viewport and camera
    state, [ScreenToOrtho] is the exact inverse of the ortho-to-screen
    conversions on integer pixel coordinates; the integer variant
    [OrthoToScreen] is the componentwise floor of [OrthoToScreenF]; and
    [ScreenToOrtho] after [OrthoToScreen] returns (x, y) lowered by the
    fractional parts of the screen coordinates, that is by less than one
    unit in each component, and (x, y) itself when they are integral. *)
Theorem ScreenToOrtho_inverse_on_pixels :
  forall (v : Viewport R),
    (forall i j : Z,
        uncurry (OrthoToScreenF v) (ScreenToOrtho v i j) = (IZR i, IZR j)) /\
    (forall i j : Z,
        GoInt.in_range i = true -> GoInt.in_range j = true ->
        uncurry (OrthoToScreen v) (ScreenToOrtho v i j) = (i, j)) /\
    (forall x y : R,
        fits_int (fst (OrthoToScreenF v x y)) ->
        fits_int (snd (OrthoToScreenF v x y)) ->
        OrthoToScreen v x y =
        (Zfloor (fst (OrthoToScreenF v x y)),
         Zfloor (snd (OrthoToScreenF v x y))) /\
        (x - 1 < fst (uncurry (ScreenToOrtho v) (OrthoToScreen v x y)) <= x)%R /\
        (y - 1 < snd (uncurry (ScreenToOrtho v) (OrthoToScreen v x y)) <= y)%R /\
        (fst (OrthoToScreenF v x y) = IZR (Zfloor (fst (OrthoToScreenF v x y)))
         -> snd (OrthoToScreenF v x y)
            = IZR (Zfloor (snd (OrthoToScreenF v x y)))
         -> uncurry (ScreenToOrtho v) (OrthoToScreen v x y) = (x, y))).
Proof.
  intros v. split_all.
  - apply OrthoToScreenF_ScreenToOrtho_R.
  - apply OrthoToScreen_ScreenToOrtho_R.
  - intros x y Hx Hy.
    pose proof (ScreenToOrtho_OrthoToScreen_R v x y Hx Hy) as Hrt.
    pose proof (Zfloor_bound (fst (OrthoToScreenF v x y))) as Bx.
    pose proof (Zfloor_bound (snd (OrthoToScreenF v x y))) as By.
    split_all.
    + apply OrthoToScreen_R; assumption.
    + rewrite Hrt. cbn [fst]. lra.
    + rewrite Hrt. cbn [fst]. lra.
    + rewrite Hrt. cbn [snd]. lra.
    + rewrite Hrt. cbn [snd]. lra.
    + intros Ex Ey. rewrite Hrt. f_equal; lra.
Qed.

(** On the 800 by 600 screen: the pixel (400, 380) goes to the ortho
    point (0, 80) and back, and the ortho point (1/2, 0) comes back
    within one unit. *)
Lemma ScreenToOrtho_inverse_on_pixels_witness :
  uncurry (OrthoToScreen (screen800x600 (F := R)))
          (ScreenToOrtho screen800x600 400 380)
    = (400, 380) /\
  (1 / 2 - 1
   < fst (uncurry (ScreenToOrtho screen800x600)
                  (OrthoToScreen screen800x600 (1 / 2)%R 0%R))
   <= 1 / 2)%R.
Proof.
  pose proof (ScreenToOrtho_inverse_on_pixels (screen800x600 (F := R)))
    as (_ & Hpix & Hfloor).
  split.
  - apply Hpix; reflexivity.
  - apply (Hfloor (1 / 2)%R 0%R);
      rewrite OrthoToScreenF_800x600_R; cbn [fst snd]; fits.
Defined.

(* ================================================================= *)
(** ** The translation stack *)

Section TranslationStack.

Context {F : Type} `{Float64 F}.

Lemma PopTranslation_PushTranslationOrtho (v : Viewport F) (x y : F) :
  PopTranslation (PushTranslationOrtho v x y) = Ok v.
Proof.
  destruct v as [d s st cur cam al].
  unfold PopTranslation, PushTranslationOrtho.
  cbn [transStack transCurrent defaultScreenRect screenRect camera align].
  rewrite length_app. cbn [List.length].
  replace (List.length st + 1 - 1)%nat with (List.length st) by lia.
  replace (Nat.eqb (List.length st + 1) 0) with false
    by (symmetry; apply Nat.eqb_neq; lia).
  rewrite firstn_app, firstn_all, Nat.sub_diag, app_nil_r.
  rewrite app_nth2, Nat.sub_diag by lia.
  reflexivity.
Qed.

Lemma PopTranslation_empty (v : Viewport F) :
  PopTranslation v = Panic "empty stack" <-> transStack v = [].
Proof.
  unfold PopTranslation. destruct (transStack v) as [| t st].
  - split; reflexivity.
  - split; discriminate.
Qed.

Lemma popN_succ (n : nat) (v : Viewport F) :
  popN (S n) v = bind (popN n v) PopTranslation.
Proof.
  revert v. induction n as [| n IH]; intros v.
  - cbn [popN bind]. destruct (PopTranslation v); reflexivity.
  - change (popN (S (S n)) v) with (bind (PopTranslation v) (popN (S n))).
    change (popN (S n) v) with (bind (PopTranslation v) (popN n)).
    destruct (PopTranslation v) as [w | msg]; cbn [bind].
    + apply IH.
    + reflexivity.
Qed.

Lemma popN_pushAll (ts : list (F * F)) (v : Viewport F) :
  popN (List.length ts) (pushAll ts v) = Ok v.
Proof.
  revert v. induction ts as [| [x y] ts IH]; intros v.
  - reflexivity.
  - cbn [List.length pushAll]. rewrite popN_succ, IH. cbn [bind].
    apply PopTranslation_PushTranslationOrtho.
Qed.

Lemma pushAll_transStack (ts : list (F * F)) (v : Viewport F) :
  List.length (transStack (pushAll ts v))
  = (List.length (transStack v) + List.length ts)%nat.
Proof.
  revert v. induction ts as [| [x y] ts IH]; intros v; cbn [pushAll List.length].
  - lia.
  - rewrite IH. cbn [PushTranslationOrtho transStack].
    rewrite length_app. cbn [List.length]. lia.
Qed.

(** C4: after N calls of [PushTranslationOrtho], with any arguments,
    followed by N calls of [PopTranslation], no call panics and
    [GetTranslationOrtho] returns what it returned before; and
    [PopTranslation] on an empty translation stack panics, with no
    viewport returned. *)
Theorem push_pop_balance :
  forall (v : Viewport F),
    (forall ts : list (F * F),
        exists v',
          popN (List.length ts) (pushAll ts v) = Ok v' /\
          GetTranslationOrtho v' = GetTranslationOrtho v) /\
    (transStack v = [] -> PopTranslation v = Panic "empty stack") /\
    (transStack v = [] ->
     forall ts : list (F * F),
       popN (S (List.length ts)) (pushAll ts v) = Panic "empty stack").
Proof.
  intros v. split_all.
  - intros ts. exists v. split; [apply popN_pushAll | reflexivity].
  - apply PopTranslation_empty.
  - intros Hemp ts. rewrite popN_succ, popN_pushAll. cbn [bind].
    apply PopTranslation_empty. exact Hemp.
Qed.

End TranslationStack.

(** On a new viewport: one pop panics, and so does the third pop after
    two pushes. *)
Lemma push_pop_balance_witness :
  PopTranslation (screen800x600 (F := float)) = Panic "empty stack" /\
  popN 3 (pushAll [(1%float, 2%float); (3%float, 4%float)] screen800x600)
    = Panic "empty stack".
Proof.
  pose proof (push_pop_balance (screen800x600 (F := float)))
    as (_ & Hpop & Hmore).
  split.
  - apply Hpop. reflexivity.
  - apply (Hmore eq_refl [(1%float, 2%float); (3%float, 4%float)]).
Defined.

(* ================================================================= *)
(** ** Alignment *)

Section Alignment.

Context {F : Type} `{Float64 F}.

Lemma toLeft_idempotent (v : Viewport F) : toLeft (toLeft v) = toLeft v.
Proof.
  unfold toLeft at 2 3. destruct (align v =? left) eqn:Hal.
  - unfold toLeft. rewrite Hal. reflexivity.
  - reflexivity.
Qed.

Lemma toRight_idempotent (v : Viewport F) : toRight (toRight v) = toRight v.
Proof.
  unfold toRight at 2 3. destruct (align v =? right) eqn:Hal.
  - unfold toRight. rewrite Hal. reflexivity.
  - reflexivity.
Qed.

Lemma resetAlign_idempotent (v : Viewport F) :
  resetAlign (resetAlign v) = resetAlign v.
Proof.
  unfold resetAlign at 2 3. destruct (align v =? center) eqn:Hal.
  - unfold resetAlign. rewrite Hal. reflexivity.
  - reflexivity.
Qed.

Lemma NewViewport_invariant (x y w h : Z) :
  alignment_invariant (NewViewport (F := F) x y w h).
Proof.
  unfold alignment_invariant. cbn. split_all; try reflexivity.
  left. split; reflexivity.
Qed.

Lemma applyAlign_invariant (v : Viewport F) (op : AlignOp) :
  alignment_invariant v -> alignment_invariant (applyAlign v op).
Proof.
  unfold alignment_invariant. intros (Htop & Hh & Hmode).
  destruct op; cbn [applyAlign].
  - unfold toLeft. destruct (align v =? left) eqn:Hal.
    + split_all; assumption.
    + cbn. split_all; try assumption.
      right. left. split_all; reflexivity.
  - unfold toRight. destruct (align v =? right) eqn:Hal.
    + split_all; assumption.
    + cbn. split_all; try assumption.
      right. right. split_all; try reflexivity.
      destruct Hmode as [(_ & Hs) | [(_ & _ & Hl) | (Har & _)]].
      * left. rewrite Hs. reflexivity.
      * right. exact Hl.
      * apply Z.eqb_neq in Hal. contradiction.
  - unfold resetAlign. destruct (align v =? center) eqn:Hal.
    + split_all; assumption.
    + cbn. split_all; try assumption.
      left. split; [reflexivity |].
      destruct (defaultScreenRect v) as [dl dt dw dh].
      cbn in *. rewrite Htop, Hh. reflexivity.
Qed.

(** What every sequence of alignment transitions maintains. In right
    mode the left edge is one of two values: it is whatever the mode
    entered from had left there. *)
Lemma alignments_invariant (ops : list AlignOp) (x y w h : Z) :
  alignment_invariant (alignments ops (NewViewport (F := F) x y w h)).
Proof.
  unfold alignments.
  generalize (NewViewport_invariant x y w h).
  generalize (NewViewport (F := F) x y w h).
  induction ops as [| op ops IH]; intros v Hv; cbn [fold_left].
  - exact Hv.
  - apply IH. apply applyAlign_invariant. exact Hv.
Qed.

(** C2, at the input where the code departs from it: [toLeft] then
    [toRight] ends in right mode with the left edge of left mode,
    [defaultScreenRect.Left + defaultScreenRect.Width/2], where the
    claim has [defaultScreenRect.Left]. [toRight] assigns the width only. *)
Theorem toRight_keeps_shifted_left :
  forall (x y w h : Z),
    let v := alignments [ToLeft; ToRight] (NewViewport (F := F) x y w h) in
    align v = right /\
    defaultScreenRect v = Rectangle.mk x y w h /\
    Rectangle.Width (screenRect v) = GoInt.quot w 2 /\
    Rectangle.Left (screenRect v) = GoInt.add x (GoInt.quot w 2) /\
    (GoInt.add x (GoInt.quot w 2) <> x ->
     Rectangle.Left (screenRect v)
     <> Rectangle.Left (defaultScreenRect v)).
Proof.
  intros x y w h v. subst v. cbn. split_all; try reflexivity.
  intros Hne. exact Hne.
Qed.

(** C3, at the input where the code departs from it: on the 800 by 600
    screen, left mode gives left 400 and width 400, right mode entered
    from center gives left 0 and width 400, center mode gives back left 0
    and width 800, each transition is idempotent, and right mode entered
    from left mode gives left 400 and width 400, where the claim has
    left 0. *)
Theorem alignment_800x600 :
  let v0 := screen800x600 (F := F) in
  screenRect (toLeft v0) = Rectangle.mk 400 0 400 600 /\
  screenRect (toRight v0) = Rectangle.mk 0 0 400 600 /\
  screenRect (resetAlign (toLeft v0)) = Rectangle.mk 0 0 800 600 /\
  screenRect (resetAlign (toRight v0)) = Rectangle.mk 0 0 800 600 /\
  screenRect (resetAlign (toRight (toLeft v0))) = Rectangle.mk 0 0 800 600 /\
  (forall v : Viewport F, toLeft (toLeft v) = toLeft v) /\
  (forall v : Viewport F, toRight (toRight v) = toRight v) /\
  (forall v : Viewport F, resetAlign (resetAlign v) = resetAlign v) /\
  align (toRight (toLeft v0)) = right /\
  screenRect (toRight (toLeft v0)) = Rectangle.mk 400 0 400 600.
Proof.
  cbv zeta. split_all; try reflexivity.
  - apply toLeft_idempotent.
  - apply toRight_idempotent.
  - apply resetAlign_idempotent.
Qed.

End Alignment.

(** [toRight_keeps_shifted_left] on the 800 by 600 screen: the left edge
    is 400 in right mode. *)
Lemma toRight_keeps_shifted_left_witness :
  Rectangle.Left
    (screenRect (alignments [ToLeft; ToRight] (NewViewport (F := float) 0 0 800 600)))
  <> Rectangle.Left
       (defaultScreenRect
          (alignments [ToLeft; ToRight] (NewViewport (F := float) 0 0 800 600))).
Proof.
  apply (toRight_keeps_shifted_left (F := float) 0 0 800 600).
  vm_compute. discriminate.
Defined.

(* ================================================================= *)
(** ** More on the translation stack *)

Section StackSequences.

Context {F : Type} `{Float64 F}.

Lemma applyStackOp_push (v : Viewport F) (p : StackOp F) :
  isPush p = true ->
  exists x y, applyStackOp v p = Ok (PushTranslationOrtho v x y).
Proof.
  destruct p as [x y | x y | x y |]; cbn [isPush applyStackOp]; intros Hp.
  - exists x, y. reflexivity.
  - unfold PushTranslationWorld. destruct (WorldToOrtho v x y) as [ox oy].
    exists ox, oy. reflexivity.
  - unfold PushTranslationScreen. destruct (ScreenToOrtho v x y) as [ox oy].
    exists ox, oy. reflexivity.
  - discriminate.
Qed.

Lemma runStack_app (a b : list (StackOp F)) (v : Viewport F) :
  runStack (a ++ b) v = bind (runStack a v) (runStack b).
Proof.
  revert v. induction a as [| op a IH]; intros v.
  - reflexivity.
  - cbn [app runStack]. destruct (applyStackOp v op) as [w | msg]; cbn [bind].
    + apply IH.
    + reflexivity.
Qed.

Lemma runStack_balanced (ops : list (StackOp F)) :
  balanced ops -> forall v : Viewport F, runStack ops v = Ok v.
Proof.
  induction 1 as [| p ops Hp Hb IH | a b Ha IHa Hb IHb]; intros v.
  - reflexivity.
  - cbn [runStack].
    destruct (applyStackOp_push v p Hp) as (x & y & Hpush).
    rewrite Hpush. cbn [bind]. rewrite runStack_app, IH.
    cbn [bind runStack applyStackOp].
    rewrite PopTranslation_PushTranslationOrtho. reflexivity.
  - rewrite runStack_app, IHa. cbn [bind]. apply IHb.
Qed.

(** X1: a well-nested sequence of pushes (ortho, world or screen) and
    pops never panics and leaves the viewport exactly as it was. *)
Theorem balanced_sequence_restores :
  forall (ops : list (StackOp F)) (v : Viewport F),
    balanced ops ->
    runStack ops v = Ok v /\
    (forall v', runStack ops v = Ok v' ->
                GetTranslationOrtho v' = GetTranslationOrtho v /\
                GetTranslationScreen v' = GetTranslationScreen v).
Proof.
  intros ops v Hb. split.
  - apply runStack_balanced. exact Hb.
  - intros v' Hrun. rewrite (runStack_balanced Hb v) in Hrun.
    injection Hrun as <-. split; reflexivity.
Qed.

Lemma applyStackOp_depth (v v' : Viewport F) (p : StackOp F) :
  isPush p = true -> applyStackOp v p = Ok v' ->
  List.length (transStack v') = S (List.length (transStack v)).
Proof.
  intros Hp Hv. destruct (applyStackOp_push v p Hp) as (x & y & Hpush).
  rewrite Hpush in Hv. injection Hv as <-.
  cbn [PushTranslationOrtho transStack]. rewrite length_app. cbn [List.length].
  lia.
Qed.

Lemma PopTranslation_depth (v : Viewport F) :
  match PopTranslation v with
  | Ok v' => S (List.length (transStack v')) = List.length (transStack v)
  | Panic msg => msg = "empty stack"%string /\ transStack v = []
  end.
Proof.
  unfold PopTranslation. destruct (transStack v) as [| t st] eqn:Hst.
  - cbn. split; reflexivity.
  - cbn [List.length Nat.eqb transStack].
    rewrite length_firstn. cbn [List.length]. lia.
Qed.

(** X2: a sequence of stack calls panics exactly when one of its pops
    meets an empty stack, and the only panic is "empty stack"; otherwise
    it returns a viewport whose stack has the depth that counting pushes
    and pops gives. *)
Theorem runStack_depth :
  forall (ops : list (StackOp F)) (v : Viewport F),
    match depthAfter ops (List.length (transStack v)) with
    | Some d =>
        exists v', runStack ops v = Ok v' /\
                   List.length (transStack v') = d
    | None => runStack ops v = Panic "empty stack"
    end.
Proof.
  induction ops as [| op ops IH]; intros v.
  - cbn. exists v. split; reflexivity.
  - destruct op as [x y | x y | x y |].
    + cbn [depthAfter runStack].
      destruct (applyStackOp v (Push x y)) as [w | msg] eqn:Hop;
        [| discriminate].
      rewrite <- (applyStackOp_depth v (Push x y) eq_refl Hop).
      cbn [bind]. apply IH.
    + cbn [depthAfter runStack].
      destruct (applyStackOp v (PushWorld x y)) as [w | msg] eqn:Hop;
        [| discriminate].
      rewrite <- (applyStackOp_depth v (PushWorld x y) eq_refl Hop).
      cbn [bind]. apply IH.
    + cbn [depthAfter runStack].
      destruct (applyStackOp v (PushScreen x y)) as [w | msg] eqn:Hop;
        [| discriminate].
      rewrite <- (applyStackOp_depth v (PushScreen x y) eq_refl Hop).
      cbn [bind]. apply IH.
    + cbn [depthAfter runStack applyStackOp].
      pose proof (PopTranslation_depth v) as Hpop.
      destruct (PopTranslation v) as [w | msg].
      * rewrite <- Hpop. cbn [bind]. apply IH.
      * destruct Hpop as [-> Hemp]. rewrite Hemp. reflexivity.
Qed.

Lemma popN_unwinds (n : nat) :
  forall v : Viewport F,
    (n <= List.length (transStack v))%nat ->
    exists v',
      popN n v = Ok v' /\
      transStack v'
      = firstn (List.length (transStack v) - n) (transStack v) /\
      (0 < n ->
       transCurrent v'
       = nth (List.length (transStack v) - n) (transStack v)
             (transCurrent v))%nat /\
      defaultScreenRect v' = defaultScreenRect v /\
      screenRect v' = screenRect v /\
      camera v' = camera v /\
      align v' = align v.
Proof.
  induction n as [| n IH]; intros v Hn.
  - exists v. cbn [popN]. rewrite Nat.sub_0_r, firstn_all.
    split_all; try reflexivity. intros Hlt. lia.
  - cbn [popN]. unfold PopTranslation at 1.
    destruct (Nat.eqb (List.length (transStack v)) 0) eqn:Hz.
    + apply Nat.eqb_eq in Hz. lia.
    + cbn [bind].
      set (len := List.length (transStack v)) in *.
      set (v1 := {| defaultScreenRect := defaultScreenRect v;
                    screenRect := screenRect v;
                    transStack := firstn (len - 1) (transStack v);
                    transCurrent := nth (len - 1) (transStack v) (transCurrent v);
                    camera := camera v;
                    align := align v |}).
      assert (Hlen1 : List.length (transStack v1) = (len - 1)%nat).
      { cbn [v1 transStack]. rewrite length_firstn. fold len. lia. }
      destruct (IH v1) as (v' & Hpop & Hst & Hcur & Hd & Hs & Hc & Ha).
      { rewrite Hlen1. lia. }
      exists v'. rewrite Hlen1 in Hst, Hcur.
      cbn [v1 transStack transCurrent defaultScreenRect screenRect camera align]
        in Hst, Hcur, Hd, Hs, Hc, Ha.
      split_all; try assumption.
      * rewrite Hst, firstn_firstn. f_equal. lia.
      * intros _. destruct n as [| n'].
        -- cbn [popN] in Hpop. injection Hpop as <-. reflexivity.
        -- rewrite Hcur by lia.
           rewrite nth_firstn.
           replace (Nat.ltb (len - 1 - S n') (len - 1)) with true
             by (symmetry; apply Nat.ltb_lt; lia).
           replace (len - 1 - S n')%nat with (len - S (S n'))%nat by lia.
           apply nth_indep. fold len. lia.
Qed.

Lemma popN_too_many (n : nat) :
  forall v : Viewport F,
    (List.length (transStack v) < n)%nat ->
    popN n v = Panic "empty stack".
Proof.
  induction n as [| n IH]; intros v Hn.
  - lia.
  - cbn [popN]. pose proof (PopTranslation_depth v) as Hpop.
    destruct (PopTranslation v) as [w | msg]; cbn [bind].
    + apply IH. lia.
    + destruct Hpop as [-> _]. reflexivity.
Qed.

(** X3: [n] pops succeed exactly when the stack holds at least [n]
    entries. They then cut the stack to its first [len - n] entries and
    make current the translation saved at index [len - n], with the
    rectangles, camera and alignment untouched; with fewer entries they
    panic. *)
Theorem popN_unwinds_or_panics :
  forall (n : nat) (v : Viewport F),
    let len := List.length (transStack v) in
    ((n <= len)%nat ->
     exists v',
       popN n v = Ok v' /\
       transStack v' = firstn (len - n) (transStack v) /\
       ((0 < n)%nat ->
        transCurrent v' = nth (len - n) (transStack v) (transCurrent v)) /\
       agree_except_translation v' v) /\
    ((len < n)%nat -> popN n v = Panic "empty stack").
Proof.
  intros n v len. split.
  - intros Hn.
    destruct (@popN_unwinds n v Hn) as (v' & Hpop & Hst & Hcur & Hd & Hs & Hc & Ha).
    exists v'. split_all; try assumption.
    repeat split; assumption.
  - apply popN_too_many.
Qed.

Lemma pushAll_GetTranslationOrtho (ts : list (F * F)) (v : Viewport F) :
  GetTranslationOrtho (pushAll ts v)
  = sumTranslations ts (GetTranslationOrtho v).
Proof.
  revert v. induction ts as [| [x y] ts IH]; intros v.
  - reflexivity.
  - cbn [pushAll]. rewrite IH. reflexivity.
Qed.

(** X4: after a series of pushes the current translation is the running
    sum of the pushed offsets, added to the initial translation in push
    order, and the stack has grown by one entry per push, the oldest
    entries first and unchanged. *)
Theorem pushAll_accumulates :
  forall (ts : list (F * F)) (v : Viewport F),
    GetTranslationOrtho (pushAll ts v)
    = sumTranslations ts (GetTranslationOrtho v) /\
    List.length (transStack (pushAll ts v))
    = (List.length (transStack v) + List.length ts)%nat /\
    firstn (List.length (transStack v)) (transStack (pushAll ts v))
    = transStack v /\
    (ts <> [] ->
     nth (List.length (transStack v)) (transStack (pushAll ts v))
         (transCurrent v)
     = transCurrent v).
Proof.
  intros ts v. split_all.
  - apply pushAll_GetTranslationOrtho.
  - apply pushAll_transStack.
  - destruct (@popN_unwinds (List.length ts) (pushAll ts v))
      as (v' & Hpop & Hst & _).
    { rewrite pushAll_transStack. lia. }
    rewrite popN_pushAll in Hpop. injection Hpop as <-.
    rewrite pushAll_transStack in Hst.
    replace (List.length (transStack v) + List.length ts - List.length ts)%nat
      with (List.length (transStack v)) in Hst by lia.
    symmetry. exact Hst.
  - intros Hne.
    destruct (@popN_unwinds (List.length ts) (pushAll ts v))
      as (v' & Hpop & _ & Hcur & _).
    { rewrite pushAll_transStack. lia. }
    rewrite popN_pushAll in Hpop. injection Hpop as <-.
    rewrite pushAll_transStack in Hcur.
    replace (List.length (transStack v) + List.length ts - List.length ts)%nat
      with (List.length (transStack v)) in Hcur by lia.
    assert (Hpos : (0 < List.length ts)%nat).
    { destruct ts; [contradiction | cbn; lia]. }
    rewrite (Hcur Hpos) at 2.
    apply nth_indep. rewrite pushAll_transStack. lia.
Qed.

End StackSequences.

(** A well-nested sequence on the 800 by 600 screen. *)
Lemma balanced_sequence_restores_witness :
  runStack [Push 1%float 2%float; PushScreen 3 4; Pop; Pop] screen800x600
  = Ok screen800x600.
Proof.
  apply (balanced_sequence_restores (F := float)).
  apply (@balanced_wrap float (Push 1%float 2%float) [PushScreen 3 4; Pop]
                        eq_refl).
  apply (@balanced_wrap float (PushScreen 3 4) [] eq_refl).
  apply balanced_nil.
Defined.

(** Three pops on a new viewport panic; one pop after one push does not. *)
Lemma popN_unwinds_or_panics_witness :
  popN 3 (screen800x600 (F := float)) = Panic "empty stack" /\
  exists v',
    popN 1 (PushTranslationOrtho screen800x600 1%float 2%float) = Ok v' /\
    transStack v' = [].
Proof.
  split.
  - apply (popN_unwinds_or_panics 3 (screen800x600 (F := float))).
    cbn. lia.
  - destruct (proj1 (popN_unwinds_or_panics 1
               (PushTranslationOrtho screen800x600 1%float 2%float)))
      as (v' & Hpop & Hst & _).
    + cbn. lia.
    + exists v'. split; [exact Hpop | exact Hst].
Defined.

(** The entry pushed first holds the translation that was current. *)
Lemma pushAll_accumulates_witness :
  nth 0 (transStack (pushAll [(1%float, 2%float); (3%float, 4%float)]
                             screen800x600))
      (worldTrans.mk 9%float 9%float)
  = worldTrans.mk 0%float 0%float.
Proof.
  rewrite (nth_indep _ _ (transCurrent (screen800x600 (F := float))))
    by (cbn; lia).
  destruct (pushAll_accumulates [(1%float, 2%float); (3%float, 4%float)]
                                (screen800x600 (F := float)))
    as (_ & _ & _ & Hfirst).
  apply Hfirst. discriminate.
Defined.

(* ================================================================= *)
(** ** More on alignment *)

Section AlignmentSequences.

Context {F : Type} `{Float64 F}.

Lemma applyAlign_frame (v : Viewport F) (op : AlignOp) :
  defaultScreenRect (applyAlign v op) = defaultScreenRect v /\
  transStack (applyAlign v op) = transStack v /\
  transCurrent (applyAlign v op) = transCurrent v /\
  camera (applyAlign v op) = camera v.
Proof.
  destruct op; cbn [applyAlign].
  - unfold toLeft. destruct (align v =? left); repeat split.
  - unfold toRight. destruct (align v =? right); repeat split.
  - unfold resetAlign. destruct (align v =? center); repeat split.
Qed.

Lemma alignments_frame (ops : list AlignOp) (v : Viewport F) :
  defaultScreenRect (alignments ops v) = defaultScreenRect v /\
  transStack (alignments ops v) = transStack v /\
  transCurrent (alignments ops v) = transCurrent v /\
  camera (alignments ops v) = camera v.
Proof.
  unfold alignments. revert v.
  induction ops as [| op ops IH]; intros v; cbn [fold_left].
  - repeat split.
  - destruct (IH (applyAlign v op)) as (Hd & Hs & Hc & Hm).
    destruct (applyAlign_frame v op) as (Hd' & Hs' & Hc' & Hm').
    rewrite Hd, Hs, Hc, Hm. repeat split; assumption.
Qed.

Lemma applyStackOp_frame (v : Viewport F) (op : StackOp F) :
  match applyStackOp v op with
  | Ok v' => agree_except_translation v v'
  | Panic _ => True
  end.
Proof.
  destruct op as [x y | x y | x y |]; cbn [applyStackOp].
  - apply PushTranslationOrtho_agree.
  - unfold PushTranslationWorld. destruct (WorldToOrtho v x y).
    apply PushTranslationOrtho_agree.
  - unfold PushTranslationScreen. destruct (ScreenToOrtho v x y).
    apply PushTranslationOrtho_agree.
  - unfold PopTranslation.
    destruct (Nat.eqb (List.length (transStack v)) 0); [exact I |].
    repeat split.
Qed.

Lemma runStack_frame (ops : list (StackOp F)) (v : Viewport F) :
  match runStack ops v with
  | Ok v' => agree_except_translation v v'
  | Panic _ => True
  end.
Proof.
  revert v. induction ops as [| op ops IH]; intros v; cbn [runStack].
  - repeat split.
  - pose proof (applyStackOp_frame v op) as Hop.
    destruct (applyStackOp v op) as [w | msg]; cbn [bind]; [| exact I].
    pose proof (IH w) as Hrest.
    destruct (runStack ops w) as [v' | msg]; [| exact I].
    destruct Hop as (Hd & Hs & Hc & Ha).
    destruct Hrest as (Hd' & Hs' & Hc' & Ha').
    repeat split; congruence.
Qed.

(** X5: the alignment transitions and the translation stack do not touch
    each other's state: no sequence of [toLeft], [toRight], [resetAlign]
    changes [defaultScreenRect], the translation stack, the current
    translation or the camera, and no sequence of pushes and pops changes
    either rectangle, the camera or the alignment. *)
Theorem alignment_and_stack_are_separate :
  (forall (ops : list AlignOp) (v : Viewport F),
      defaultScreenRect (alignments ops v) = defaultScreenRect v /\
      transStack (alignments ops v) = transStack v /\
      transCurrent (alignments ops v) = transCurrent v /\
      camera (alignments ops v) = camera v) /\
  (forall (ops : list (StackOp F)) (v : Viewport F),
      match runStack ops v with
      | Ok v' => agree_except_translation v v'
      | Panic _ => True
      end).
Proof.
  split.
  - apply alignments_frame.
  - apply runStack_frame.
Qed.

(** X6: in every state reached from construction by alignment
    transitions, [defaultScreenRect] is the rectangle given to
    [NewViewport], [screenRect] has its top and height, its width is the
    full width in center mode and the integer half in left and right
    mode, and its left edge is the default one in center mode, shifted by
    half the width in left mode, and one of the two in right mode. *)
Theorem alignment_reachable_invariant :
  forall (ops : list AlignOp) (x y w h : Z),
    let v := alignments ops (NewViewport (F := F) x y w h) in
    defaultScreenRect v = Rectangle.mk x y w h /\
    alignment_invariant v /\
    Rectangle.Width (screenRect v)
    = (if align v =? center then w else GoInt.quot w 2) /\
    (align v =? center) || (align v =? left) || (align v =? right) = true.
Proof.
  intros ops x y w h v.
  pose proof (alignments_invariant ops x y w h) as Hinv. fold v in Hinv.
  destruct (alignments_frame ops (NewViewport (F := F) x y w h))
    as (Hd & _). fold v in Hd. cbn [NewViewport defaultScreenRect] in Hd.
  split_all; try assumption.
  - destruct Hinv as (_ & _ & [(Ha & Hs) | [(Ha & Hw & _) | (Ha & Hw & _)]]);
      rewrite Ha; cbn [Z.eqb center left right].
    + rewrite Hs, Hd. reflexivity.
    + rewrite Hw, Hd. reflexivity.
    + rewrite Hw, Hd. reflexivity.
  - destruct Hinv as (_ & _ & [(Ha & _) | [(Ha & _) | (Ha & _)]]);
      rewrite Ha; reflexivity.
Qed.

Lemma Rectangle_eta (r : Rectangle.t) :
  r = Rectangle.mk (Rectangle.Left r) (Rectangle.Top r)
                   (Rectangle.Width r) (Rectangle.Height r).
Proof. destruct r. reflexivity. Qed.

Lemma resetAlign_alignments (ops : list AlignOp) (x y w h : Z) :
  resetAlign (alignments ops (NewViewport (F := F) x y w h))
  = NewViewport x y w h.
Proof.
  pose proof (alignments_invariant ops x y w h) as Hinv.
  destruct (alignments_frame ops (NewViewport (F := F) x y w h))
    as (Hd & Hst & Hcur & Hcam).
  cbn [NewViewport defaultScreenRect transStack transCurrent camera]
    in Hd, Hst, Hcur, Hcam.
  destruct (alignments ops (NewViewport (F := F) x y w h))
    as [d s st cur cam al].
  unfold alignment_invariant in Hinv.
  cbn [defaultScreenRect screenRect transStack transCurrent camera align]
    in Hinv, Hd, Hst, Hcur, Hcam.
  subst d st cur cam. cbn [Rectangle.Top Rectangle.Height Rectangle.Left
                           Rectangle.Width] in Hinv.
  destruct Hinv as (Htop & Hh & Hmode).
  unfold resetAlign. cbn [align defaultScreenRect screenRect].
  destruct (al =? center) eqn:Hal.
  - apply Z.eqb_eq in Hal.
    destruct Hmode as [(_ & Hs) | [(Ha & _) | (Ha & _)]].
    + subst al s. reflexivity.
    + rewrite Ha in Hal. discriminate.
    + rewrite Ha in Hal. discriminate.
  - unfold set_screenRect, NewViewport.
    cbn [defaultScreenRect screenRect transStack transCurrent camera align
         Rectangle.Left Rectangle.Width].
    rewrite Htop, Hh. reflexivity.
Qed.

(** X7: whatever alignment transitions came before, [resetAlign] brings
    a viewport built by [NewViewport] back to the state it was built in. *)
Theorem resetAlign_restores_construction :
  forall (ops : list AlignOp) (x y w h : Z),
    resetAlign (alignments ops (NewViewport (F := F) x y w h))
    = NewViewport x y w h.
Proof.
  intros ops x y w h. apply resetAlign_alignments.
Qed.

(** X8: from every state reached by alignment transitions, [toLeft]
    gives the left-mode rectangle, and [toRight] gives the right-mode
    rectangle with the default left edge when it is entered from center
    mode, in particular after [resetAlign]. *)
Theorem toLeft_and_toRight_from_center :
  forall (ops : list AlignOp) (x y w h : Z),
    let v := alignments ops (NewViewport (F := F) x y w h) in
    screenRect (toLeft v)
    = Rectangle.mk (GoInt.add x (GoInt.quot w 2)) y (GoInt.quot w 2) h /\
    align (toLeft v) = left /\
    screenRect (toRight (resetAlign v))
    = Rectangle.mk x y (GoInt.quot w 2) h /\
    align (toRight (resetAlign v)) = right.
Proof.
  intros ops x y w h v.
  pose proof (alignments_invariant ops x y w h) as Hinv. fold v in Hinv.
  destruct (alignments_frame ops (NewViewport (F := F) x y w h))
    as (Hd & _). fold v in Hd. cbn [NewViewport defaultScreenRect] in Hd.
  unfold alignment_invariant in Hinv. rewrite Hd in Hinv.
  cbn [Rectangle.Top Rectangle.Height Rectangle.Left Rectangle.Width] in Hinv.
  destruct Hinv as (Htop & Hh & Hmode).
  split_all.
  - unfold toLeft. destruct (align v =? left) eqn:Hal.
    + apply Z.eqb_eq in Hal.
      destruct Hmode as [(Ha & _) | [(_ & Hw & Hl) | (Ha & _)]].
      * rewrite Ha in Hal. discriminate.
      * rewrite (Rectangle_eta (screenRect v)), Htop, Hh, Hw, Hl.
        reflexivity.
      * rewrite Ha in Hal. discriminate.
    + cbn [set_screenRect screenRect]. rewrite Hd, Htop, Hh. reflexivity.
  - unfold toLeft. destruct (align v =? left) eqn:Hal.
    + apply Z.eqb_eq in Hal. exact Hal.
    + reflexivity.
  - unfold v. rewrite resetAlign_alignments. reflexivity.
  - unfold v. rewrite resetAlign_alignments. reflexivity.
Qed.

End AlignmentSequences.

(* ================================================================= *)
(** ** More on the conversions, over the reals *)

Lemma OrthoToScreenF_R (v : Viewport R) (x y : R) :
  OrthoToScreenF v x y =
  ((x - fst (cameraPosition v)
    + IZR (GoInt.quot (Rectangle.Width (screenRect v)) 2)
    + IZR (Rectangle.Left (screenRect v)))%R,
   (y - snd (cameraPosition v)
    + IZR (GoInt.quot (Rectangle.Height (screenRect v)) 2)
    + IZR (Rectangle.Top (screenRect v)))%R).
Proof.
  rewrite OrthoToScreenF_eq, getCameraOffset_eq.
  cbn [fst snd fadd fsub float64_of_int Float64_R]. f_equal; lra.
Qed.

Lemma Zfloor_subz (r : R) (k : Z) : Zfloor (r - IZR k) = Zfloor r - k.
Proof.
  replace (r - IZR k)%R with (r + IZR (- k))%R by (rewrite opp_IZR; lra).
  rewrite Zfloor_addz. lia.
Qed.



Lemma OrthoToScreen_fst_le (v : Viewport R) (x y x' y' : R) :
  on_int_screen v x y -> on_int_screen v x' y' ->
  (x <= x')%R ->
  fst (OrthoToScreen v x y) <= fst (OrthoToScreen v x' y').
Proof.
  intros [Hx Hy] [Hx' Hy'] Hle.
  rewrite !OrthoToScreen_R by assumption. cbn [fst].
  apply Zfloor_le. rewrite !OrthoToScreenF_R. cbn [fst]. lra.
Qed.

Lemma OrthoToScreen_snd_le (v : Viewport R) (x y x' y' : R) :
  on_int_screen v x y -> on_int_screen v x' y' ->
  (y <= y')%R ->
  snd (OrthoToScreen v x y) <= snd (OrthoToScreen v x' y').
Proof.
  intros [Hx Hy] [Hx' Hy'] Hle.
  rewrite !OrthoToScreen_R by assumption. cbn [snd].
  apply Zfloor_le. rewrite !OrthoToScreenF_R. cbn [snd]. lra.
Qed.


Lemma IsOrthoRectVisible_mono (v : Viewport R)
      (x1 y1 x2 y2 x1' y1' x2' y2' : R) :
  on_int_screen v x1 y1 -> on_int_screen v x2 y2 ->
  on_int_screen v x1' y1' -> on_int_screen v x2' y2' ->
  (x1' <= x1)%R -> (y1' <= y1)%R -> (x2 <= x2')%R -> (y2 <= y2')%R ->
  IsOrthoRectVisible v x1 y1 x2 y2 = true ->
  IsOrthoRectVisible v x1' y1' x2' y2' = true.
Proof.
  intros H1 H2 H1' H2' Hx1 Hy1 Hx2 Hy2 Hvis.
  destruct (IsOrthoRectVisible v x1' y1' x2' y2') eqn:Hbig; [reflexivity |].
  apply IsOrthoRectVisible_false_iff in Hbig.
  assert (Hsmall : IsOrthoRectVisible v x1 y1 x2 y2 = false);
    [| rewrite Hsmall in Hvis; discriminate].
  apply IsOrthoRectVisible_false_iff.
  pose proof (OrthoToScreen_fst_le H1' H1 Hx1).
  pose proof (OrthoToScreen_snd_le H1' H1 Hy1).
  pose proof (OrthoToScreen_fst_le H2 H2' Hx2).
  pose proof (OrthoToScreen_snd_le H2 H2' Hy2).
  lia.
Qed.

(** X11: over the reals and within [int] range, culling respects
    containment: when an ortho rectangle is visible, every ortho
    rectangle that contains it is visible. *)
Theorem IsOrthoRectVisible_containment :
  forall (v : Viewport R) (x1 y1 x2 y2 x1' y1' x2' y2' : R),
    on_int_screen v x1 y1 -> on_int_screen v x2 y2 ->
    on_int_screen v x1' y1' -> on_int_screen v x2' y2' ->
    (x1' <= x1)%R -> (y1' <= y1)%R -> (x2 <= x2')%R -> (y2 <= y2')%R ->
    IsOrthoRectVisible v x1 y1 x2 y2 = true ->
    IsOrthoRectVisible v x1' y1' x2' y2' = true.
Proof.
  intros v x1 y1 x2 y2 x1' y1' x2' y2'. apply IsOrthoRectVisible_mono.
Qed.



Ltac on_screen800x600 :=
  unfold on_int_screen; rewrite OrthoToScreenF_800x600_R; cbn [fst snd];
  split; fits.

Lemma IsOrthoRectVisible_centre_800x600_R :
  IsOrthoRectVisible (screen800x600 (F := R)) 0%R 0%R 0%R 0%R = true.
Proof.
  assert (Hpx : OrthoToScreen (screen800x600 (F := R)) 0%R 0%R = (400, 300)).
  { apply OrthoToScreen_R_value;
      [ reflexivity | reflexivity
      | rewrite OrthoToScreenF_800x600_R; cbn [fst snd]; lra
      | rewrite OrthoToScreenF_800x600_R; cbn [fst snd]; lra ]. }
  rewrite IsOrthoRectVisible_eq, Hpx. reflexivity.
Qed.


(** On the 800 by 600 screen: the rectangle around the visible centre
    point is visible. *)
Lemma IsOrthoRectVisible_containment_witness :
  IsOrthoRectVisible (screen800x600 (F := R)) (-1)%R (-1)%R 1%R 1%R = true.
Proof.
  apply (@IsOrthoRectVisible_containment
           (screen800x600 (F := R)) 0%R 0%R 0%R 0%R (-1)%R (-1)%R 1%R 1%R);
    [ on_screen800x600 | on_screen800x600 | on_screen800x600
    | on_screen800x600 | lra | lra | lra | lra
    | apply IsOrthoRectVisible_centre_800x600_R ].
Defined.



(* ================================================================= *)
(** ** Tiles *)

Lemma small_rect_corners (rect : Rectangle.t) :
  small_rect rect ->
  let l := Rectangle.Left rect in
  let t := Rectangle.Top rect in
  let r := Rectangle.Left rect + Rectangle.Width rect in
  let b := Rectangle.Top rect + Rectangle.Height rect in
  Rectangle.Right rect = r /\
  Rectangle.Bottom rect = b /\
  GoInt.mul (GoInt.sub l (Rectangle.Bottom rect)) 80 = (l - b) * 80 /\
  GoInt.mul (GoInt.add l t) 40 = (l + t) * 40 /\
  GoInt.mul (GoInt.sub (Rectangle.Right rect) t) 80 = (r - t) * 80 /\
  GoInt.mul (GoInt.add (Rectangle.Right rect) (Rectangle.Bottom rect)) 40
  = (r + b) * 40.
Proof.
  intros (Hl & Ht & Hw & Hh) l t r b.
  assert (Hwrap : forall z, - 1000000000000 <= z <= 1000000000000 ->
                            GoInt.wrap z = z).
  { intros z Hz. apply wrap_in_range. apply in_range_bounds.
    unfold GoInt.min_int, GoInt.max_int. lia. }
  unfold Rectangle.Right, Rectangle.Bottom, GoInt.mul, GoInt.sub, GoInt.add.
  fold l t. subst r b.
  rewrite (Hwrap (l + Rectangle.Width rect)) by lia.
  rewrite (Hwrap (t + Rectangle.Height rect)) by lia.
  rewrite (Hwrap (l - (t + Rectangle.Height rect))) by lia.
  rewrite (Hwrap (l + t)) by lia.
  rewrite (Hwrap (l + Rectangle.Width rect - t)) by lia.
  rewrite (Hwrap (l + Rectangle.Width rect + (t + Rectangle.Height rect)))
    by lia.
  rewrite !Hwrap by lia.
  repeat split.
Qed.

Lemma IsTileRectVisible_R (v : Viewport R) (rect : Rectangle.t) :
  small_rect rect ->
  let l := IZR (Rectangle.Left rect) in
  let t := IZR (Rectangle.Top rect) in
  let r := IZR (Rectangle.Left rect + Rectangle.Width rect) in
  let b := IZR (Rectangle.Top rect + Rectangle.Height rect) in
  IsTileRectVisible v rect =
  IsOrthoRectVisible v
    (fst (WorldToOrtho v l b)) (snd (WorldToOrtho v l t))
    (fst (WorldToOrtho v r t)) (snd (WorldToOrtho v r b)).
Proof.
  intros Hsmall l t r b.
  destruct (small_rect_corners Hsmall) as (_ & _ & H1 & H2 & H3 & H4).
  unfold IsTileRectVisible. rewrite H1, H2, H3, H4.
  unfold WorldToOrtho.
  cbn [fst snd fadd fsub fmul float64_of_int Float64_R].
  subst l t r b.
  rewrite !mult_IZR, !minus_IZR, !plus_IZR. reflexivity.
Qed.

(** X14: over the reals and for a tile rectangle whose fields stay
    below 10^9, [IsTileRectVisible] is the ortho test on the bounding
    box of the four projected corners, and it never culls a rectangle
    that contains a visible point: when a world point inside the
    rectangle projects to a visible ortho point, the rectangle is
    reported visible. *)
Theorem IsTileRectVisible_bounding_box :
  forall (v : Viewport R) (rect : Rectangle.t),
    small_rect rect ->
    let l := IZR (Rectangle.Left rect) in
    let t := IZR (Rectangle.Top rect) in
    let r := IZR (Rectangle.Left rect + Rectangle.Width rect) in
    let b := IZR (Rectangle.Top rect + Rectangle.Height rect) in
    let left := fst (WorldToOrtho v l b) in
    let top := snd (WorldToOrtho v l t) in
    let right := fst (WorldToOrtho v r t) in
    let bottom := snd (WorldToOrtho v r b) in
    IsTileRectVisible v rect = IsOrthoRectVisible v left top right bottom /\
    (forall x y : R,
        (l <= x <= r)%R -> (t <= y <= b)%R ->
        on_int_screen v left top -> on_int_screen v right bottom ->
        on_int_screen v (fst (WorldToOrtho v x y)) (snd (WorldToOrtho v x y)) ->
        IsOrthoRectVisible v (fst (WorldToOrtho v x y))
                             (snd (WorldToOrtho v x y))
                             (fst (WorldToOrtho v x y))
                             (snd (WorldToOrtho v x y)) = true ->
        IsTileRectVisible v rect = true).
Proof.
  intros v rect Hsmall l t r b left top right bottom.
  pose proof (IsTileRectVisible_R v Hsmall) as Hbox.
  cbv zeta in Hbox. fold l t r b in Hbox. fold left top right bottom in Hbox.
  split; [exact Hbox |].
  intros x y Hx Hy Hlt Hrb Hp Hvis. rewrite Hbox.
  refine (IsOrthoRectVisible_mono Hp Hp Hlt Hrb _ _ _ _ Hvis);
    subst left top right bottom; unfold WorldToOrtho;
    cbn [fst snd fadd fsub fmul float64_of_int Float64_R]; lra.
Qed.







(** The tile rectangle from (0, 0) to (2, 2) on the 800 by 600 screen
    contains the world point (0, 0), which is shown at the centre. *)
Lemma IsTileRectVisible_bounding_box_witness :
  IsTileRectVisible (screen800x600 (F := R)) (Rectangle.mk 0 0 2 2) = true.
Proof.
  assert (Hsmall : small_rect (Rectangle.mk 0 0 2 2))
    by (unfold small_rect; cbn; lia).
  destruct (@IsTileRectVisible_bounding_box
              (screen800x600 (F := R)) (Rectangle.mk 0 0 2 2) Hsmall)
    as (_ & Hpoint).
  assert (Horigin : WorldToOrtho (screen800x600 (F := R)) 0%R 0%R
                    = (0%R, 0%R)).
  { unfold WorldToOrtho.
    cbn [fadd fsub fmul float64_of_int Float64_R]. f_equal; lra. }
  apply (Hpoint 0%R 0%R).
  - cbn [Rectangle.Left Rectangle.Width]. rewrite plus_IZR. lra.
  - cbn [Rectangle.Top Rectangle.Height]. rewrite plus_IZR. lra.
  - unfold WorldToOrtho.
    cbn [fst snd fadd fsub fmul float64_of_int Float64_R
         Rectangle.Left Rectangle.Top Rectangle.Width Rectangle.Height].
    rewrite !plus_IZR. on_screen800x600.
  - unfold WorldToOrtho.
    cbn [fst snd fadd fsub fmul float64_of_int Float64_R
         Rectangle.Left Rectangle.Top Rectangle.Width Rectangle.Height].
    rewrite !plus_IZR. on_screen800x600.
  - rewrite Horigin. cbn [fst snd]. on_screen800x600.
  - rewrite Horigin. cbn [fst snd].
    apply IsOrthoRectVisible_centre_800x600_R.
Defined.

(* ================================================================= *)
(** ** Moving the camera, the world and the alignment, over the reals *)






